(** * parser_dorm: the retrying fetcher, the trim-table parser and the
      periodic persister of [mabelast.py], embedded in Rocq.

    Python values are modelled as the program has them:
    - a [str] is a sequence of Unicode code points ([list N]);
    - a [dict] keeps its keys in insertion order (an ordered association
      list without duplicate keys), because [pandas.DataFrame] derives the
      column order of the exported sheet from it;
    - a [float] is the rational it denotes, and the one operation on floats,
      the subtraction of line 218, rounds its result to the nearest double;
    - the three things the program only observes (the web server, the
      wall clock and the outcome of writing the spreadsheet) are oracles,
      and so is [urllib.parse.urljoin], which returns the joined URL or
      raises [ValueError]. *)

From Stdlib Require Import List String Ascii Bool Arith NArith ZArith QArith Lia.
Import ListNotations.

Local Open Scope nat_scope.
Local Open Scope list_scope.

(* ===================================================================== *)
(** ** Python strings                                                     *)
(* ===================================================================== *)

(** A Python [str]: Unicode code points. *)
Definition str := list N.

Definition str_eq_dec : forall a b : str, {a = b} + {a <> b} :=
  list_eq_dec N.eq_dec.

Definition str_eqb (a b : str) : bool :=
  if str_eq_dec a b then true else false.

(** Decoding of the UTF-8 bytes of a source literal into code points. *)
Fixpoint utf8_decode (bs : list N) : str :=
  match bs with
  | [] => []
  | b0 :: t0 =>
    if (b0 <? 128)%N then b0 :: utf8_decode t0
    else
      match t0 with
      | [] => []
      | b1 :: t1 =>
        if (b0 <? 224)%N
        then ((b0 - 192) * 64 + (b1 - 128))%N :: utf8_decode t1
        else
          match t1 with
          | [] => []
          | b2 :: t2 =>
            if (b0 <? 240)%N
            then ((b0 - 224) * 4096 + (b1 - 128) * 64 + (b2 - 128))%N
                   :: utf8_decode t2
            else
              match t2 with
              | [] => []
              | b3 :: t3 =>
                ((b0 - 240) * 262144 + (b1 - 128) * 4096
                 + (b2 - 128) * 64 + (b3 - 128))%N :: utf8_decode t3
              end
          end
      end
  end.

(** [py "..."] is the Python literal written in the source file. *)
Definition py (s : string) : str :=
  utf8_decode (map N_of_ascii (list_ascii_of_string s)).

(** [Py_UNICODE_ISSPACE]: the code points that [str.strip()] removes and
    that [\s] matches in a [str] pattern. *)
Definition is_space (c : N) : bool :=
  ((9 <=? c) && (c <=? 13) || (28 <=? c) && (c <=? 32)
   || (c =? 133) || (c =? 160) || (c =? 5760)
   || (8192 <=? c) && (c <=? 8202)
   || (c =? 8232) || (c =? 8233) || (c =? 8239) || (c =? 8287)
   || (c =? 12288))%N.

Fixpoint lstrip (s : str) : str :=
  match s with
  | [] => []
  | c :: t => if is_space c then lstrip t else s
  end.

Definition rstrip (s : str) : str := rev (lstrip (rev s)).

(** [s.strip()] *)
Definition strip (s : str) : str := rstrip (lstrip s).

(** [re.sub(r'\s+', ' ', s)]: every maximal run of white space becomes one
    space; [in_run] tells that the previous code point was white space. *)
Fixpoint sub_spaces (in_run : bool) (s : str) : str :=
  match s with
  | [] => []
  | c :: t =>
    if is_space c
    then if in_run then sub_spaces true t else 32%N :: sub_spaces true t
    else c :: sub_spaces false t
  end.

Definition re_sub_spaces (s : str) : str := sub_spaces false s.

Fixpoint startswith (prefix s : str) : bool :=
  match prefix, s with
  | [], _ => true
  | _ :: _, [] => false
  | a :: p, b :: t => (a =? b)%N && startswith p t
  end.

(** [needle in s] *)
Fixpoint contains (needle s : str) : bool :=
  startswith needle s
  || match s with
     | [] => false
     | _ :: t => contains needle t
     end.

(** Truth value of a [str]: non-empty. *)
Definition str_bool (s : str) : bool :=
  match s with [] => false | _ :: _ => true end.

(* ===================================================================== *)
(** ** Python dictionaries                                                *)
(* ===================================================================== *)

(** A [dict] from [str] to [str], keys in insertion order. *)
Definition dict := list (str * str).

Definition keys (d : dict) : list str := map fst d.

(** [d.get(k)] *)
Fixpoint dict_get (k : str) (d : dict) : option str :=
  match d with
  | [] => None
  | (k', v) :: t => if str_eqb k k' then Some v else dict_get k t
  end.

(** [d[k] = v]: an existing key keeps its position, a new key goes last. *)
Fixpoint dict_set (k v : str) (d : dict) : dict :=
  match d with
  | [] => [(k, v)]
  | (k', v') :: t =>
    if str_eqb k k' then (k, v) :: t else (k', v') :: dict_set k v t
  end.

(** [d.copy()]: a value of the model is never shared, the copy is the
    dictionary itself. *)
Definition dict_copy (d : dict) : dict := d.

(* ===================================================================== *)
(** ** Constants of the module                                            *)
(* ===================================================================== *)

Definition FILENAME : str := Eval vm_compute in py "parser_dorm.xlsx".
Definition SAVE_INTERVAL : Q := 20.
Definition MAX_RETRIES : nat := 50.
Definition REQUEST_TIMEOUT : Z := 10.
Definition RETRY_DELAY : Z := 5.

(** The field names and labels that the trim-table parser writes. *)
Definition PLACEHOLDER : str := Eval vm_compute in py "-".
Definition K_SECTION : str := Eval vm_compute in py "Общее".
Definition K_TRIM : str := Eval vm_compute in py "Комплектация".
Definition K_PERIOD : str := Eval vm_compute in py "Период выпуска".
Definition K_PRICE : str := Eval vm_compute in py "Рекомендованная цена, руб.".
Definition K_ENGINE : str := Eval vm_compute in py "Марка двигателя".
Definition K_BODY : str := Eval vm_compute in py "Марка кузова".
Definition K_PRICE_STAR : str := Eval vm_compute in py "Цена*".
Definition COMPARE : str := Eval vm_compute in py "Сравнить".

(** The fields that lines 174-179 set to the placeholder before the table
    is looked at, and the fields that lines 209-214 set back to it after
    every data row. *)
Definition TRIM_FIELDS : list str :=
  [K_SECTION; K_TRIM; K_PERIOD; K_PRICE; K_ENGINE; K_BODY].
Definition RESET_FIELDS : list str :=
  [K_TRIM; K_PERIOD; K_PRICE; K_ENGINE; K_BODY; K_PRICE_STAR].

(** The keys of the ancestor context (lines 86, 114, 140 and 152). *)
Definition K_TYPE : str := Eval vm_compute in py "ТИП".
Definition K_BRAND : str := Eval vm_compute in py "Марка".
Definition K_MODEL : str := Eval vm_compute in py "Модель".
Definition K_COUNTRY : str := Eval vm_compute in py "Для какой страны".
Definition K_DESCRIPTION : str := Eval vm_compute in py "Описание 1".

(* ===================================================================== *)
(** ** Documents, as the selectors of the program see them                *)
(* ===================================================================== *)

(** A cell of a table row, in document order: a [<th>] (with or without a
    [colspan] attribute) or a [<td>], with its [.text]. *)
Inductive cell :=
| Th (colspan : bool) (cell_text : str)
| Td (cell_text : str).

(** A [<tr>]: what [find_all] and [find] return on it. *)
Definition row := list cell.

(** [row.find_all('th')], as the list of the [.text] of the results *)
Fixpoint find_all_th (r : row) : list str :=
  match r with
  | [] => []
  | Th _ t :: rest => t :: find_all_th rest
  | Td _ :: rest => find_all_th rest
  end.

(** [row.find_all('td')] *)
Fixpoint find_all_td (r : row) : list str :=
  match r with
  | [] => []
  | Th _ _ :: rest => find_all_td rest
  | Td t :: rest => t :: find_all_td rest
  end.

(** [row.find('th', colspan=True)]: the first [<th>] that has the
    attribute. *)
Fixpoint find_th_colspan (r : row) : option str :=
  match r with
  | [] => None
  | Th true t :: _ => Some t
  | _ :: rest => find_th_colspan rest
  end.

(** A link to a generation page inside a country block: [get("href")] and
    [get_text()]. *)
Record generation_link := {
  href : option str;
  link_text : str
}.

(** A country block of a model page: the text of its name [<div>], when
    there is one, and its generation links. *)
Record country_div := {
  country_name : option str;
  car_generation_links : list generation_link
}.

(** The body of a response, through the selectors of lines 132 and 172:
    [find_trim_table] is
    [soup.find('table', {'class': 'b-table b-table_text-left'})] followed
    by [find_all('tr')]; [find_country_divs] is
    [soup.find_all("div", class_="css-18bfsxm e1ei9t6a4")]. *)
Record document := {
  find_trim_table : option (list row);
  find_country_divs : list country_div
}.

(* ===================================================================== *)
(** ** HTTP                                                               *)
(* ===================================================================== *)

Record response := {
  status_code : Z;
  text : document
}.

(** [bool(response)] is [response.ok]: no 4xx or 5xx status. *)
Definition response_bool (r : response) : bool :=
  negb ((400 <=? status_code r)%Z && (status_code r <? 600)%Z).

(** What one [requests.get] does: it returns a response or raises a
    [requests.exceptions.RequestException]. *)
Inductive attempt_result :=
| Responds (r : response)
| RequestException.

(** The exceptions that the modelled functions raise. *)
Inductive exn := IndexError | AttributeError | ValueError.

Inductive outcome := Returns | Raises (e : exn).

(* ===================================================================== *)
(** ** Observable events                                                  *)
(* ===================================================================== *)

Inductive level := INFO | WARNING | ERROR.

(** The log lines of the modelled functions, by source line. *)
Inductive message :=
| MsgAttempt (url : str) (n : nat)            (* line 39 *)
| MsgStatus (code : Z) (url : str)            (* line 44 *)
| MsgRetryIn (secs : Z)                       (* line 46 *)
| MsgCritical (code : Z)                      (* line 49 *)
| MsgRequestException (url : str)             (* line 52 *)
| MsgGaveUp (url : str) (retries : nat)       (* line 55 *)
| MsgModelRequest (url : str)                 (* line 125 *)
| MsgModelFetched                             (* line 130 *)
| MsgGenerationFailed (e : exn)               (* line 160 *)
| MsgGenerationRequest (url : str)            (* line 165 *)
| MsgGenerationFetched                        (* line 170 *)
| MsgSaved (filename : str)                   (* line 227 *)
| MsgSaveFailed.                              (* line 229 *)

Inductive event :=
| Get (url : str) (timeout : Z)
| Sleep (secs : Z)
| Log (l : level) (m : message).

Definition is_get (e : event) : bool :=
  match e with Get _ _ => true | _ => false end.

Definition is_sleep (e : event) : bool :=
  match e with Sleep _ => true | _ => false end.

(** The GET attempts and the sleeps of a trace. *)
Definition gets (tr : list event) : list event := filter is_get tr.
Definition sleeps (tr : list event) : list event := filter is_sleep tr.

(* ===================================================================== *)
(** ** fetch_url                                                          *)
(* ===================================================================== *)

(** [status in [429, 503, 443]] *)
Definition retryable (code : Z) : bool :=
  ((code =? 429) || (code =? 503) || (code =? 443))%Z.

(** The loop [for attempt in range(MAX_RETRIES)] from [attempt] on, with
    [remaining] iterations left. [get k] is what the [k]-th call of
    [requests.get] of this invocation does (counted from 0). *)
Fixpoint fetch_loop (get : nat -> attempt_result) (url : str)
         (attempt remaining : nat) : list event * option response :=
  match remaining with
  | O => ([Log ERROR (MsgGaveUp url MAX_RETRIES)], None)
  | S remaining' =>
    let started :=
      [Log INFO (MsgAttempt url (attempt + 1)); Get url REQUEST_TIMEOUT] in
    match get attempt with
    | Responds response =>
      if (status_code response =? 200)%Z
      then (started, Some response)
      else
        let warned :=
          started ++ [Log WARNING (MsgStatus (status_code response) url)] in
        if retryable (status_code response)
        then
          let '(tr, res) := fetch_loop get url (S attempt) remaining' in
          (warned ++ [Log WARNING (MsgRetryIn RETRY_DELAY); Sleep RETRY_DELAY]
                  ++ tr, res)
        else
          (warned ++ [Log ERROR (MsgCritical (status_code response))], None)
    | RequestException =>
      let '(tr, res) := fetch_loop get url (S attempt) remaining' in
      (started ++ [Log WARNING (MsgRequestException url); Sleep RETRY_DELAY]
               ++ tr, res)
    end
  end.

Definition fetch_url (get : nat -> attempt_result) (url : str)
  : list event * option response :=
  fetch_loop get url 0 MAX_RETRIES.

(* ===================================================================== *)
(** ** The accumulator, the clock and the output file                     *)
(* ===================================================================== *)

(** [pd.DataFrame(records)]: the columns are the keys of the records in the
    order of their first appearance, a record without a column has an empty
    cell there. Written with [index=False], the sheet has the columns as
    its header row and one data row per row of the frame. *)
Record DataFrame := {
  columns : list str;
  values : list (list (option str))
}.

Definition add_column (cols : list str) (k : str) : list str :=
  if existsb (str_eqb k) cols then cols else cols ++ [k].

Definition columns_of (records : list dict) : list str :=
  fold_left (fun cols r => fold_left add_column (keys r) cols) records [].

Definition make_DataFrame (records : list dict) : DataFrame :=
  let cols := columns_of records in
  {| columns := cols;
     values := map (fun r => map (fun c => dict_get c r) cols) records |}.

(** What [df.to_excel(FILENAME, ...)] does: it replaces the file by the
    sheet of the frame, or it raises and leaves [remains] at the path (nothing,
    the previous file, a damaged one). *)
Inductive write_outcome :=
| Written
| WriteFails (remains : option DataFrame).

(** The state of the process: the globals [all_data] and [last_save_time],
    the contents of [FILENAME] on disk, and how many times the clock was
    read and the file written (the positions in the two oracles). The lock
    [file_lock] has no state here: one task runs at a time. *)
Record world := {
  all_data : list dict;
  last_save_time : Q;
  file : option DataFrame;
  clock_reads : nat;
  disk_writes : nat
}.

Definition append_record (d : dict) (w : world) : world :=
  {| all_data := all_data w ++ [dict_copy d];
     last_save_time := last_save_time w;
     file := file w;
     clock_reads := clock_reads w;
     disk_writes := disk_writes w |}.

Definition set_last_save_time (t : Q) (w : world) : world :=
  {| all_data := all_data w;
     last_save_time := t;
     file := file w;
     clock_reads := clock_reads w;
     disk_writes := disk_writes w |}.

(** Line 218 subtracts two floats. [round_double x] is the double nearest
    to [x]: [x] rounded to 53 significant bits, ties to even. The exponent
    is not bounded, which changes nothing for a difference of two doubles:
    one that is subnormal is exact, and one that overflows compares with
    the interval like its sign. *)
Definition pow2_le (e p q : Z) : bool :=
  if (0 <=? e)%Z then (q * 2 ^ e <=? p)%Z else (q <=? p * 2 ^ (- e))%Z.

Definition round_half_even (a b : Z) : Z :=
  let n := (a / b)%Z in
  match (2 * (a mod b) ?= b)%Z with
  | Lt => n
  | Gt => (n + 1)%Z
  | Eq => if Z.even n then n else (n + 1)%Z
  end.

Definition round_double (x : Q) : Q :=
  let p := Z.abs (Qnum x) in
  let q := Zpos (Qden x) in
  if (p =? 0)%Z then 0%Q
  else
    let e0 := (Z.log2 p - Z.log2 q)%Z in
    let e := if pow2_le e0 p q then e0 else (e0 - 1)%Z in
    let t := (e - 52)%Z in
    let n := if (0 <=? t)%Z
             then round_half_even p (q * 2 ^ t)
             else round_half_even (p * 2 ^ (- t)) q in
    let m := (Z.sgn (Qnum x) * n)%Z in
    if (0 <=? t)%Z
    then inject_Z (m * 2 ^ t)
    else Qmake m (Z.to_pos (2 ^ (- t))).

(** [a - b] on floats *)
Definition float_sub (a b : Q) : Q := round_double (a - b).

Section Crawler.

(** [web url k]: what the [k]-th GET of one [fetch_url url] call does. *)
Variable web : str -> nat -> attempt_result.
(** [clock n]: the [n]-th reading of [time.time()], in seconds. *)
Variable clock : nat -> Q.
(** [disk n]: what the [n]-th [to_excel] does. *)
Variable disk : nat -> write_outcome.
(** [urllib.parse.urljoin base reference]: the joined URL, or [None] when
    the call raises [ValueError] (it does for a reference or a base whose
    host part it cannot split, an unbalanced bracket for one). *)
Variable urljoin : str -> str -> option str.

(** [time.time()] *)
Definition time_time (w : world) : Q * world :=
  (clock (clock_reads w),
   {| all_data := all_data w;
      last_save_time := last_save_time w;
      file := file w;
      clock_reads := S (clock_reads w);
      disk_writes := disk_writes w |}).

Definition save_data_to_excel (w : world) : world * list event :=
  let df := make_DataFrame (all_data w) in
  match disk (disk_writes w) with
  | Written =>
    ({| all_data := all_data w;
        last_save_time := last_save_time w;
        file := Some df;
        clock_reads := clock_reads w;
        disk_writes := S (disk_writes w) |},
     [Log INFO (MsgSaved FILENAME)])
  | WriteFails remains =>
    ({| all_data := all_data w;
        last_save_time := last_save_time w;
        file := remains;
        clock_reads := clock_reads w;
        disk_writes := S (disk_writes w) |},
     [Log ERROR MsgSaveFailed])
  end.

(* =================================================================== *)
(** ** parse_car_generation_page                                        *)
(* =================================================================== *)

(** [data[k] = '-'] for every [k] of [ks], in that order. *)
Definition set_all (ks : list str) (data : dict) : dict :=
  fold_left (fun d k => dict_set k PLACEHOLDER d) ks data.

(** Lines 174-179. *)
Definition set_placeholders (data : dict) : dict :=
  set_all TRIM_FIELDS data.

(** Lines 209-214. *)
Definition reset_fields (data : dict) : dict :=
  set_all RESET_FIELDS data.

(** [enumerate(l)] *)
Definition enumerate {A : Type} (l : list A) : list (nat * A) :=
  combine (seq 0 (List.length l)) l.

(** One iteration of the loop of lines 198-204. *)
Definition write_cell (headers : list str) (data : dict)
           (ic : nat * str) : dict :=
  let '(i, column) := ic in
  match nth_error headers i with
  | Some header =>
    if str_bool header && negb (contains COMPARE header)
    then dict_set header (re_sub_spaces (strip column)) data
    else data
  | None => data
  end.

Definition write_cells (headers columns : list str) (data : dict) : dict :=
  fold_left (write_cell headers) (enumerate columns) data.

(** One iteration of the loop of lines 191-214, on the local [data] and
    the global [all_data]. *)
Definition process_row (headers : list str) (st : dict * world) (r : row)
  : dict * world :=
  let '(data, w) := st in
  let columns := find_all_td r in
  match find_th_colspan r with
  | Some th => (dict_set K_SECTION (strip th) data, w)
  | None =>
    let data' := write_cells headers columns data in
    (reset_fields data', append_record data' w)
  end.

Definition process_rows (headers : list str) (rows : list row)
           (st : dict * world) : dict * world :=
  fold_left (process_row headers) rows st.

(** Lines 217-220. *)
Definition periodic_save (w : world) : world * list event :=
  let '(now, w1) := time_time w in
  if Qle_bool SAVE_INTERVAL (float_sub now (last_save_time w1))
  then
    let '(w2, tr) := save_data_to_excel w1 in
    let '(now', w3) := time_time w2 in
    (set_last_save_time now' w3, tr)
  else (w1, []).

(** The function returns [None] or raises; the dictionary [data] that it
    mutates belongs to this call alone (line 151 made the copy). *)
Definition parse_car_generation_page (car_generation_url : str)
           (data : dict) (w : world) : outcome * world * list event :=
  let '(tr, fetched) :=
    fetch_url (web car_generation_url) car_generation_url in
  let tr := Log INFO (MsgGenerationRequest car_generation_url) :: tr in
  match fetched with
  | None => (Returns, w, tr)
  | Some response =>
    if negb (response_bool response) then (Returns, w, tr)
    else
      let tr := tr ++ [Log INFO MsgGenerationFetched] in
      let data := set_placeholders data in
      match find_trim_table (text response) with
      | None => (Returns, append_record data w, tr)
      | Some rows =>
        match rows with
        | [] => (Raises IndexError, w, tr)
        | first :: rest =>
          let headers := map strip (find_all_th first) in
          let '(data, w) := process_rows headers rest (data, w) in
          let data := dict_set K_SECTION PLACEHOLDER data in
          let '(w, saved) := periodic_save w in
          (Returns, w, tr ++ saved)
        end
      end
  end.

(* =================================================================== *)
(** ** parse_car_model_page                                             *)
(* =================================================================== *)

(** The arguments of one submitted call of [parse_car_generation_page]. *)
Definition task := (str * dict)%type.

(** Lines 148-154 for the links of one country block: the calls
    submitted, and the exception that stopped the loop, if one did
    ([get("href")] is [None] for a link without the attribute, and
    [urljoin], an argument of the call of line 154, is evaluated after
    the dictionary of the link is built and before the task is
    submitted). *)
Fixpoint submit_generations (car_model_url : str) (country_data : dict)
         (links : list generation_link) : list task * option exn :=
  match links with
  | [] => ([], None)
  | car_generation_link :: rest =>
    match href car_generation_link with
    | None => ([], Some AttributeError)
    | Some h =>
      let car_generation_url := strip h in
      let description := link_text car_generation_link in
      let generation_data :=
        dict_set K_DESCRIPTION description (dict_copy country_data) in
      match urljoin car_model_url car_generation_url with
      | None => ([], Some ValueError)
      | Some joined =>
        let '(submitted, stopped) :=
          submit_generations car_model_url country_data rest in
        ((joined, generation_data) :: submitted, stopped)
      end
    end
  end.

(** Lines 136-154. *)
Fixpoint submit_countries (car_model_url : str) (data : dict)
         (divs : list country_div) : list task * option exn :=
  match divs with
  | [] => ([], None)
  | car_model_country_html :: rest =>
    match country_name car_model_country_html with
    | None => ([], Some AttributeError)
    | Some name =>
      let country_data := dict_set K_COUNTRY name (dict_copy data) in
      let '(submitted, stopped) :=
        submit_generations car_model_url country_data
          (car_generation_links car_model_country_html) in
      match stopped with
      | Some e => (submitted, Some e)
      | None =>
        let '(submitted', stopped') :=
          submit_countries car_model_url data rest in
        (submitted ++ submitted', stopped')
      end
    end
  end.

(** The worker pool, with its tasks run one after the other in the order
    of submission: the result of every future, the state and the events. *)
Fixpoint run_generation_tasks (tasks : list task) (w : world)
  : list outcome * world * list event :=
  match tasks with
  | [] => ([], w, [])
  | (car_generation_url, generation_data) :: rest =>
    let '(o, w1, tr1) :=
      parse_car_generation_page car_generation_url generation_data w in
    let '(os, w2, tr2) := run_generation_tasks rest w1 in
    (o :: os, w2, tr1 ++ tr2)
  end.

(** Lines 156-160: [future.result()] of every future inside
    [try ... except Exception]. *)
Definition collect_generation_futures (results : list outcome)
  : list event :=
  flat_map (fun o => match o with
                     | Returns => []
                     | Raises e => [Log ERROR (MsgGenerationFailed e)]
                     end) results.

(** An exception of the submission loop leaves the [with] block after
    the submitted tasks have run (the pool is shut down with
    [wait=True]) and before any future is collected. *)
Definition parse_car_model_page (car_model_url : str) (data : dict)
           (w : world) : outcome * world * list event :=
  let '(tr, fetched) := fetch_url (web car_model_url) car_model_url in
  let tr := Log INFO (MsgModelRequest car_model_url) :: tr in
  match fetched with
  | None => (Returns, w, tr)
  | Some response =>
    if negb (response_bool response) then (Returns, w, tr)
    else
      let tr := tr ++ [Log INFO MsgModelFetched] in
      let '(tasks, stopped) :=
        submit_countries car_model_url data
          (find_country_divs (text response)) in
      let '(results, w, ran) := run_generation_tasks tasks w in
      match stopped with
      | Some e => (Raises e, w, tr ++ ran)
      | None =>
        (Returns, w, tr ++ ran ++ collect_generation_futures results)
      end
  end.

End Crawler.

(* ===================================================================== *)
(** ** The brand stage, the catalog stage and the entry point             *)
(* ===================================================================== *)

(** A link to a brand page: [get("href")] and the strings inside the
    [<a>], from which [get_text(strip=True)] builds the name. *)
Record brand_link := {
  brand_href : option str;
  brand_strings : list str
}.

(** [tag.get_text(strip=True)]: every string of the tag stripped, the
    empty ones dropped, the others joined without a separator. *)
Definition get_text_strip (strings : list str) : str :=
  List.concat (filter str_bool (map strip strings)).

(** The [<div>] of line 67: the links inside its [<noscript>], when it has
    one (lines 74-77). *)
Record car_list_div := {
  noscript_links : option (list brand_link)
}.

Definition BASE_URL : str :=
  Eval vm_compute in py "https://www.drom.ru/catalog/".
Definition LCV_URL : str :=
  Eval vm_compute in py "https://www.drom.ru/catalog/lcv/".
Definition UNKNOWN_TYPE : str := Eval vm_compute in py "Неизвестно".

(** The log lines of the two upper stages and of the entry point. *)
Inductive stage_message :=
| MsgCatalogRequest (url : str)                (* line 59 *)
| MsgCatalogFetched                            (* line 64 *)
| MsgBrandFound (car_brand url : str)          (* line 85 *)
| MsgBrandFailed (e : exn)                     (* line 94 *)
| MsgBrandRequest (url : str)                  (* line 97 *)
| MsgBrandFetched                              (* line 102 *)
| MsgModelFailed (e : exn)                     (* line 122 *)
| MsgStart                                     (* line 233 *)
| MsgFinished                                  (* line 238 *)
| MsgUncaught (e : exn)                        (* line 244 *)
| MsgSavedOnExit.                              (* line 246 *)

(** What the upper stages do: the events of the stages below, and their
    own log lines. *)
Inductive stage_event :=
| Below (e : event)
| StageLog (l : level) (m : stage_message).

Section Stages.

Variable web : str -> nat -> attempt_result.
Variable clock : nat -> Q.
Variable disk : nat -> write_outcome.
Variable urljoin : str -> str -> option str.

(** The record [document] holds the views of a page that the two lower
    stages take. The views of the two upper stages are given by the URL of
    the page that was fetched:
    [find_model_links url] is what lines 104-105 find in the brand page,
    [find_car_list_div url] what line 67 finds in the catalog page and
    [find_car_type url] the text of the element of lines 68-69, when
    there is one. *)
Variable find_model_links : str -> list generation_link.
Variable find_car_list_div : str -> option car_list_div.
Variable find_car_type : str -> option str.

(** Lines 109-116: the calls of [parse_car_model_page] submitted, and the
    exception that stopped the loop, if one did: line 111 raises
    [AttributeError] for a link without [href] and [ValueError] when
    [urljoin] does. *)
Fixpoint submit_models (car_brand_url : str) (data : dict)
         (links : list generation_link) : list task * option exn :=
  match links with
  | [] => ([], None)
  | car_model_link :: rest =>
    let care_model := link_text car_model_link in
    match href car_model_link with
    | None => ([], Some AttributeError)
    | Some h =>
      match urljoin car_brand_url (strip h) with
      | None => ([], Some ValueError)
      | Some car_model_url =>
        let model_data := dict_set K_MODEL care_model (dict_copy data) in
        let '(submitted, stopped) := submit_models car_brand_url data rest in
        ((car_model_url, model_data) :: submitted, stopped)
      end
    end
  end.

(** The worker pool of a brand page, its tasks run one after the other in
    the order of submission. *)
Fixpoint run_model_tasks (tasks : list task) (w : world)
  : list outcome * world * list stage_event :=
  match tasks with
  | [] => ([], w, [])
  | (car_model_url, model_data) :: rest =>
    let '(o, w1, tr1) :=
      parse_car_model_page web clock disk urljoin car_model_url model_data w
    in
    let '(os, w2, tr2) := run_model_tasks rest w1 in
    (o :: os, w2, map Below tr1 ++ tr2)
  end.

(** Lines 118-122. *)
Definition collect_model_futures (results : list outcome)
  : list stage_event :=
  flat_map (fun o => match o with
                     | Returns => []
                     | Raises e => [StageLog ERROR (MsgModelFailed e)]
                     end) results.

Definition parse_brand_page (car_brand_url : str) (data : dict) (w : world)
  : outcome * world * list stage_event :=
  let '(tr, fetched) := fetch_url (web car_brand_url) car_brand_url in
  let tr := StageLog INFO (MsgBrandRequest car_brand_url) :: map Below tr in
  match fetched with
  | None => (Returns, w, tr)
  | Some response =>
    if negb (response_bool response) then (Returns, w, tr)
    else
      let tr := tr ++ [StageLog INFO MsgBrandFetched] in
      let '(tasks, stopped) :=
        submit_models car_brand_url data (find_model_links car_brand_url) in
      let '(results, w, ran) := run_model_tasks tasks w in
      match stopped with
      | Some e => (Raises e, w, tr ++ ran)
      | None => (Returns, w, tr ++ ran ++ collect_model_futures results)
      end
  end.

(** Lines 81-88: the calls of [parse_brand_page] submitted, the lines
    logged for them, and the exception that stopped the loop, if one
    did: line 83 raises [AttributeError] for a link without [href] and
    [ValueError] when [urljoin] does, both before the line of the link
    is logged. *)
Fixpoint submit_brands (url car_type : str) (links : list brand_link)
  : list task * list stage_event * option exn :=
  match links with
  | [] => ([], [], None)
  | car_brand_link :: rest =>
    let car_brand := get_text_strip (brand_strings car_brand_link) in
    match brand_href car_brand_link with
    | None => ([], [], Some AttributeError)
    | Some h =>
      match urljoin url (strip h) with
      | None => ([], [], Some ValueError)
      | Some car_brand_url =>
        let data := [(K_TYPE, car_type); (K_BRAND, car_brand)] in
        let '(submitted, logged, stopped) :=
          submit_brands url car_type rest in
        ((car_brand_url, data) :: submitted,
         StageLog INFO (MsgBrandFound car_brand car_brand_url) :: logged,
         stopped)
      end
    end
  end.

(** The worker pool of the catalog page. *)
Fixpoint run_brand_tasks (tasks : list task) (w : world)
  : list outcome * world * list stage_event :=
  match tasks with
  | [] => ([], w, [])
  | (car_brand_url, data) :: rest =>
    let '(o, w1, tr1) := parse_brand_page car_brand_url data w in
    let '(os, w2, tr2) := run_brand_tasks rest w1 in
    (o :: os, w2, tr1 ++ tr2)
  end.

(** Lines 90-94. *)
Definition collect_brand_futures (results : list outcome)
  : list stage_event :=
  flat_map (fun o => match o with
                     | Returns => []
                     | Raises e => [StageLog ERROR (MsgBrandFailed e)]
                     end) results.

(** Lines 72-77. *)
Definition car_brand_links_of (car_list : option car_list_div)
  : list brand_link :=
  match car_list with
  | Some div =>
    match noscript_links div with
    | Some links => links
    | None => []
    end
  | None => []
  end.

Definition parse_catalog_page (url : str) (w : world)
  : outcome * world * list stage_event :=
  let '(tr, fetched) := fetch_url (web url) url in
  let tr := StageLog INFO (MsgCatalogRequest url) :: map Below tr in
  match fetched with
  | None => (Returns, w, tr)
  | Some response =>
    if negb (response_bool response) then (Returns, w, tr)
    else
      let tr := tr ++ [StageLog INFO MsgCatalogFetched] in
      let car_list_div := find_car_list_div url in
      let car_type :=
        match find_car_type url with
        | Some t => t
        | None => UNKNOWN_TYPE
        end in
      let car_brand_links := car_brand_links_of car_list_div in
      let '(tasks, logged, stopped) :=
        submit_brands url car_type car_brand_links in
      let '(results, w, ran) := run_brand_tasks tasks w in
      match stopped with
      | Some e => (Raises e, w, tr ++ logged ++ ran)
      | None =>
        (Returns, w, tr ++ logged ++ ran ++ collect_brand_futures results)
      end
  end.

(** The entry point, lines 231-246. An interruption from the keyboard is
    not an event of this model; the handler of line 243 takes the
    exception of a catalog stage. *)
Definition main (w : world) : world * list stage_event :=
  let started := [StageLog INFO MsgStart] in
  let on_exception (e : exn) (w : world) (tr : list stage_event) :=
    let '(w, saved) := save_data_to_excel disk w in
    (w, tr ++ [StageLog ERROR (MsgUncaught e)] ++ map Below saved
           ++ [StageLog INFO MsgSavedOnExit]) in
  let '(o1, w1, tr1) := parse_catalog_page BASE_URL w in
  match o1 with
  | Raises e => on_exception e w1 (started ++ tr1)
  | Returns =>
    let '(o2, w2, tr2) := parse_catalog_page LCV_URL w1 in
    match o2 with
    | Raises e => on_exception e w2 (started ++ tr1 ++ tr2)
    | Returns =>
      let '(w3, saved) := save_data_to_excel disk w2 in
      (w3, started ++ tr1 ++ tr2 ++ map Below saved
             ++ [StageLog INFO MsgFinished])
    end
  end.

End Stages.

(* ===================================================================== *)
(** ** Notions used in the statements                                     *)
(* ===================================================================== *)

(** The records that the loop of lines 191-214 appends for [rows], started
    with the local dictionary [data]. *)
Fixpoint emitted (headers : list str) (rows : list row) (data : dict)
  : list dict :=
  match rows with
  | [] => []
  | r :: rest =>
    match find_th_colspan r with
    | Some th => emitted headers rest (dict_set K_SECTION (strip th) data)
    | None =>
      let data' := write_cells headers (find_all_td r) data in
      data' :: emitted headers rest (reset_fields data')
    end
  end.

(** [k in ks] *)
Definition mem (k : str) (ks : list str) : bool := existsb (str_eqb k) ks.

(** A header that line 201 lets through. *)
Definition writable (header : str) : bool :=
  str_bool header && negb (contains COMPARE header).

(** Two states that differ at most in the accumulator. *)
Definition same_outside_all_data (w w' : world) : Prop :=
  last_save_time w' = last_save_time w /\ file w' = file w
  /\ clock_reads w' = clock_reads w /\ disk_writes w' = disk_writes w.

(** The context of a brand (line 86) and of a model (lines 113-114). *)
Definition brand_data (car_type car_brand : str) : dict :=
  [(K_TYPE, car_type); (K_BRAND, car_brand)].

Definition model_data (data : dict) (care_model : str) : dict :=
  dict_set K_MODEL care_model (dict_copy data).

(** An attempt after which [fetch_url] sleeps and goes on: the request
    raised, or the status is one of 429, 503 and 443. *)
Definition retried (o : attempt_result) : Prop :=
  o = RequestException
  \/ exists resp, o = Responds resp
                  /\ In (status_code resp) [429; 503; 443]%Z.

(** What holds of the local dictionary [d] at the head of every iteration
    of the loop over the rows, for the dictionary [context] that the caller
    passed in: it has the keys of the context, it has no key besides those,
    the fixed fields and the headers that line 201 lets through, and it
    agrees with the context outside the headers and the fixed fields. *)
Definition rows_invariant (headers : list str) (context d : dict) : Prop :=
  (forall k, In k (keys context) -> In k (keys d))
  /\ (forall k, In k (keys d) ->
                In k (keys context) \/ In k TRIM_FIELDS \/ In k RESET_FIELDS
                \/ (In k headers /\ writable k = true))
  /\ (forall k, ~ In k headers -> ~ In k TRIM_FIELDS -> ~ In k RESET_FIELDS ->
                dict_get k d = dict_get k context).

(** Whether a task gets as far as the check of lines 217-220: the page
    was fetched and its table has a first row. *)
Definition reaches_save_check (fetched : option response) : bool :=
  match fetched with
  | Some r =>
    match find_trim_table (text r) with
    | Some (_ :: _) => true
    | _ => false
    end
  | None => false
  end.

(** A row for which the loop appends a record: it has no [<th>] with a
    [colspan] attribute. *)
Definition is_data_row (r : row) : bool :=
  match find_th_colspan r with
  | None => true
  | Some _ => false
  end.

(** The five fields that are both set before the table is read and reset
    after every data row. *)
Definition PLACEHOLDER_FIELDS : list str :=
  [K_TRIM; K_PERIOD; K_PRICE; K_ENGINE; K_BODY].

(** A string that does not begin with white space. *)
Definition starts_clean (s : str) : bool :=
  match s with
  | [] => true
  | c :: _ => negb (is_space c)
  end.

(** A string without white space at either end. *)
Definition trimmed (s : str) : bool :=
  starts_clean s && starts_clean (rev s).

(** A string whose only white space is single spaces (U+0020), none of
    them followed by white space. *)
Fixpoint single_spaced (s : str) : bool :=
  match s with
  | [] => true
  | c :: t =>
    (negb (is_space c) || ((c =? 32)%N && starts_clean t))
    && single_spaced t
  end.

(** The code points of a string that are not white space. *)
Definition visible (s : str) : str :=
  filter (fun c => negb (is_space c)) s.

(** The exception that a submission loop raises at a link whose
    [get("href")] is [h], if it raises one: [AttributeError] at [.strip()]
    when the attribute is missing, [ValueError] when [urljoin] rejects the
    stripped reference. *)
Definition href_error (urljoin : str -> str -> option str) (base : str)
           (h : option str) : option exn :=
  match h with
  | None => Some AttributeError
  | Some reference =>
    match urljoin base (strip reference) with
    | None => Some ValueError
    | Some _ => None
    end
  end.

(** The exception of the first element of [l] at which [error] gives
    one. *)
Fixpoint first_error {A : Type} (error : A -> option exn) (l : list A)
  : option exn :=
  match l with
  | [] => None
  | x :: rest =>
    match error x with
    | Some e => Some e
    | None => first_error error rest
    end
  end.

(** The exception at a generation or model link. *)
Definition link_error (urljoin : str -> str -> option str) (base : str)
           (l : generation_link) : option exn :=
  href_error urljoin base (href l).

(** The exception at a country block: [AttributeError] when it has no
    name element (line 140), the first exception at its links
    otherwise. *)
Definition block_error (urljoin : str -> str -> option str) (base : str)
           (d : country_div) : option exn :=
  match country_name d with
  | None => Some AttributeError
  | Some _ => first_error (link_error urljoin base) (car_generation_links d)
  end.

(** An event that is the line of line 160, at any level. *)
Definition logs_generation_failure (ev : event) : bool :=
  match ev with
  | Log _ (MsgGenerationFailed _) => true
  | _ => false
  end.

(** The five keys of the ancestor context. *)
Definition ANCESTOR_FIELDS : list str :=
  [K_TYPE; K_BRAND; K_MODEL; K_COUNTRY; K_DESCRIPTION].

(** The exception at a brand link. *)
Definition brand_link_error (urljoin : str -> str -> option str)
           (base : str) (l : brand_link) : option exn :=
  href_error urljoin base (brand_href l).

(* ===================================================================== *)
(** ** Sample inputs                                                      *)
(* ===================================================================== *)

Definition sample_url : str :=
  Eval vm_compute in py "https://www.drom.ru/catalog/toyota/camry/g_2017_1/".

Definition page_without_table : document :=
  {| find_trim_table := None; find_country_divs := [] |}.

Definition answer (code : Z) (body : document) : response :=
  {| status_code := code; text := body |}.

(** 429, then 503, then 200. *)
Definition busy_twice (k : nat) : attempt_result :=
  match k with
  | 0 => Responds (answer 429 page_without_table)
  | 1 => Responds (answer 503 page_without_table)
  | _ => Responds (answer 200 page_without_table)
  end.

(** 429 on the even attempts, a network error on the odd ones. *)
Definition never_available (k : nat) : attempt_result :=
  if Nat.even k then Responds (answer 429 page_without_table)
  else RequestException.

Definition not_found (k : nat) : attempt_result :=
  Responds (answer 404 page_without_table).

(** A catalog where every page answers at the third attempt with a page
    that has no trim table. *)
Definition web_without_table (url : str) : nat -> attempt_result :=
  busy_twice.

Definition sample_data : dict :=
  Eval vm_compute in
    dict_set K_DESCRIPTION (py "2017 - 2021, 8 поколение, XV70")
      (dict_set K_COUNTRY (py "Россия")
         (model_data (brand_data (py "Легковые") (py "Toyota"))
                     (py "Camry"))).

Definition idle_clock (n : nat) : Q := 0.
Definition late_clock (n : nat) : Q := 100.
Definition good_disk (n : nat) : write_outcome := Written.

Definition empty_world : world :=
  {| all_data := []; last_save_time := 0; file := None;
     clock_reads := 0; disk_writes := 0 |}.

(** A trim table: a header row with a comparison column, two data rows. *)
Definition sample_table : list row :=
  Eval vm_compute in
    [ [Th false (py " Комплектация "); Th false (py "Период выпуска");
       Th false (py "Цена*"); Th false (py "Сравнить")];
      [Td (py "2.0 AT   Standard"); Td (py " 04.2018 - 02.2021 ");
       Td (py "1 573 000"); Td (py "")];
      [Td (py "2.5 AT Prestige"); Td (py "04.2018 - 02.2021");
       Td (py "2 000 000"); Td (py "")] ].

Definition page_with_table : document :=
  {| find_trim_table := Some sample_table; find_country_divs := [] |}.

Definition web_with_table (url : str) (k : nat) : attempt_result :=
  Responds (answer 200 page_with_table).

(** A table with a column outside the fixed fields and a second data row
    that is shorter than the header row. *)
Definition K_DRIVE : str := Eval vm_compute in py "Привод".

Definition short_row_table : list row :=
  Eval vm_compute in
    [ [Th false (py "Комплектация"); Th false (py "Привод")];
      [Td (py "Base"); Td (py "4WD")];
      [Td (py "Lux")] ].

Definition web_short_row (url : str) (k : nat) : attempt_result :=
  Responds (answer 200 {| find_trim_table := Some short_row_table;
                          find_country_divs := [] |}).

Definition web_not_found (url : str) : nat -> attempt_result := not_found.

Definition section_row : row :=
  Eval vm_compute in [Th true (py " Седан ")].

(** A state with one record that was appended after the file was last
    written, and a disk whose first write fails and leaves the previous
    file in place. *)
Definition one_record_world : world :=
  {| all_data := [set_placeholders sample_data];
     last_save_time := 0;
     file := Some (make_DataFrame []);
     clock_reads := 0;
     disk_writes := 0 |}.

Definition locked_then_good_disk (n : nat) : write_outcome :=
  match n with
  | 0 => WriteFails (Some (make_DataFrame []))
  | _ => Written
  end.

(** A model page with one country block and three generation links; the
    second generation page has a table without any row, the first has the
    sample table and the third has no table. [urljoin] is stood for by
    the concatenation of the base and the reference, which is what it
    returns for the relative references of these pages, and by the
    [ValueError] that it raises for the reference [//[]. *)
Definition BAD_REFERENCE : str := Eval vm_compute in py "//[".

Definition sample_urljoin (base reference : str) : option str :=
  if str_eqb reference BAD_REFERENCE then None else Some (base ++ reference).

Definition model_url : str :=
  Eval vm_compute in py "https://www.drom.ru/catalog/toyota/camry/".

Definition page_with_empty_table : document :=
  {| find_trim_table := Some []; find_country_divs := [] |}.

Definition model_page : document :=
  Eval vm_compute in
    {| find_trim_table := None;
       find_country_divs :=
         [ {| country_name := Some (py "Россия");
              car_generation_links :=
                [ {| href := Some (py " g_2017_1/ ");
                     link_text := py "2017 - 2021" |};
                  {| href := Some (py "g_2011_2/");
                     link_text := py "2011 - 2014" |};
                  {| href := Some (py "g_2006_3/");
                     link_text := py "2006 - 2011" |} ] |} ] |}.

Definition web_of_model (url : str) (k : nat) : attempt_result :=
  if str_eqb url model_url then Responds (answer 200 model_page)
  else if str_eqb url (model_url ++ py "g_2011_2/")
       then Responds (answer 200 page_with_empty_table)
       else if str_eqb url (model_url ++ py "g_2017_1/")
            then Responds (answer 200 page_with_table)
            else Responds (answer 200 page_without_table).

Definition sample_model_data : dict :=
  Eval vm_compute in
    model_data (brand_data (py "Легковые") (py "Toyota")) (py "Camry").

(** The three tasks that the sample model page submits. *)
Definition sample_tasks : list (str * dict) :=
  Eval vm_compute in
    fst (submit_countries sample_urljoin model_url sample_model_data
                          (find_country_divs model_page)).

Definition empty_table_task : str * dict :=
  Eval vm_compute in nth 1 sample_tasks ([], []).

(** A network error, then 503, then the page. *)
Definition flaky_then_ok (k : nat) : attempt_result :=
  match k with
  | 0 => RequestException
  | 1 => Responds (answer 503 page_without_table)
  | _ => Responds (answer 200 page_without_table)
  end.

(** 429, then a network error, then 404. *)
Definition busy_then_gone (k : nat) : attempt_result :=
  match k with
  | 0 => Responds (answer 429 page_without_table)
  | 1 => RequestException
  | _ => Responds (answer 404 page_without_table)
  end.

(** A trim table with two section rows: one data row under the first,
    two under the second, the last of them with a cell too many. *)
Definition sectioned_table : list row :=
  Eval vm_compute in
    [ [Th false (py "Комплектация"); Th false (py "Период выпуска")];
      [Th true (py " Седан ")];
      [Td (py "1.6 MT"); Td (py "2010 - 2012")];
      [Th true (py "Универсал")];
      [Td (py "1.6 AT"); Td (py "2011 - 2013")];
      [Td (py "2.0 AT"); Td (py "2011 - 2013"); Td (py "x")] ].

Definition web_sectioned (url : str) (k : nat) : attempt_result :=
  Responds (answer 200 {| find_trim_table := Some sectioned_table;
                          find_country_divs := [] |}).

Definition early_clock (n : nat) : Q := 5.

(** A model page whose second country block has no name element. *)
Definition model_page_with_nameless_block : document :=
  Eval vm_compute in
    {| find_trim_table := None;
       find_country_divs :=
         find_country_divs model_page
         ++ [ {| country_name := None;
                 car_generation_links :=
                   [ {| href := Some (py "g_2001_4/");
                        link_text := py "2001 - 2006" |} ] |} ] |}.

Definition web_of_nameless_block (url : str) (k : nat) : attempt_result :=
  if str_eqb url model_url
  then Responds (answer 200 model_page_with_nameless_block)
  else web_of_model url k.

(** A catalog with one brand, Toyota, whose page lists the sample model
    page; the pages are served by [web_of_model]. In the second catalog
    below, a further brand link has no [href]. *)
Definition toyota_link : brand_link :=
  Eval vm_compute in
    {| brand_href := Some (py " toyota/ ");
       brand_strings := [py "  "; py " Toyota "] |}.

Definition sample_car_list (url : str) : option car_list_div :=
  if str_eqb url BASE_URL
  then Some {| noscript_links := Some [toyota_link] |}
  else None.

Definition malformed_car_list (url : str) : option car_list_div :=
  if str_eqb url BASE_URL
  then Some {| noscript_links :=
                 Some [toyota_link;
                       {| brand_href := None; brand_strings := [] |}] |}
  else None.

(** The same catalog with a second brand link whose reference [urljoin]
    rejects. *)
Definition unresolvable_car_list (url : str) : option car_list_div :=
  if str_eqb url BASE_URL
  then Some {| noscript_links :=
                 Some [toyota_link;
                       {| brand_href := Some BAD_REFERENCE;
                          brand_strings := [] |}] |}
  else None.

Definition sample_model_links (url : str) : list generation_link :=
  if str_eqb url (BASE_URL ++ py "toyota/")
  then [ {| href := Some (py "camry/"); link_text := py "Camry" |} ]
  else [].

Definition sample_car_type (url : str) : option str :=
  if str_eqb url BASE_URL then Some (py "Легковые") else None.

(* ===================================================================== *)
(** * Properties                                                          *)
(* ===================================================================== *)

(** ** Strings and dictionaries *)

Example py_section : py "Общее" = [1054; 1073; 1097; 1077; 1077]%N.
Proof. reflexivity. Qed.

Example strip_collapse :
  re_sub_spaces (strip (py "  1.6  MT
   Base ")) = py "1.6 MT Base".
Proof. reflexivity. Qed.

Example compare_in_header :
  contains COMPARE (py "Сравнить все") = true
  /\ contains COMPARE (py "Цена*") = false.
Proof. split; reflexivity. Qed.

Lemma str_eqb_eq (a b : str) : str_eqb a b = true <-> a = b.
Proof.
  unfold str_eqb. destruct (str_eq_dec a b); split; intros; congruence.
Qed.

Lemma str_eqb_refl (a : str) : str_eqb a a = true.
Proof. now apply str_eqb_eq. Qed.

Lemma str_eqb_neq (a b : str) : str_eqb a b = false <-> a <> b.
Proof.
  unfold str_eqb. destruct (str_eq_dec a b); split; intros; congruence.
Qed.

Lemma mem_In (k : str) (ks : list str) : mem k ks = true <-> In k ks.
Proof.
  unfold mem. rewrite existsb_exists. split.
  - intros [x [Hin Hx]]. apply str_eqb_eq in Hx. now subst.
  - intros Hin. exists k. split; [assumption | apply str_eqb_refl].
Qed.

Lemma mem_not_In (k : str) (ks : list str) : mem k ks = false <-> ~ In k ks.
Proof.
  rewrite <- mem_In. destruct (mem k ks); split; intros; congruence.
Qed.

Lemma dict_get_set (k k' v : str) (d : dict) :
  dict_get k (dict_set k' v d) =
  if str_eqb k k' then Some v else dict_get k d.
Proof.
  induction d as [|[k0 v0] d IH]; simpl.
  - reflexivity.
  - destruct (str_eqb k' k0) eqn:E0; simpl.
    + apply str_eqb_eq in E0. subst k0.
      destruct (str_eqb k k'); reflexivity.
    + destruct (str_eqb k k0) eqn:E1.
      * apply str_eqb_eq in E1. subst k0.
        destruct (str_eqb k k') eqn:E2; [|reflexivity].
        apply str_eqb_eq in E2. subst k'.
        rewrite str_eqb_refl in E0. discriminate.
      * exact IH.
Qed.

Lemma dict_get_set_eq (k v : str) (d : dict) :
  dict_get k (dict_set k v d) = Some v.
Proof. rewrite dict_get_set, str_eqb_refl. reflexivity. Qed.

Lemma dict_get_set_neq (k k' v : str) (d : dict) :
  k <> k' -> dict_get k (dict_set k' v d) = dict_get k d.
Proof.
  intros H. rewrite dict_get_set.
  apply str_eqb_neq in H. now rewrite H.
Qed.

Lemma keys_dict_set (k k' v : str) (d : dict) :
  In k (keys (dict_set k' v d)) <-> k = k' \/ In k (keys d).
Proof.
  induction d as [|[k0 v0] d IH]; simpl.
  - intuition congruence.
  - destruct (str_eqb k' k0) eqn:E0; simpl.
    + apply str_eqb_eq in E0. subst k0. intuition congruence.
    + rewrite IH. intuition congruence.
Qed.

Lemma dict_get_keys (k : str) (d : dict) :
  In k (keys d) <-> exists v, dict_get k d = Some v.
Proof.
  induction d as [|[k0 v0] d IH]; simpl.
  - split; [tauto | intros [v H]; discriminate].
  - destruct (str_eqb k k0) eqn:E.
    + apply str_eqb_eq in E. subst. split; eauto.
    + apply str_eqb_neq in E. rewrite <- IH. intuition congruence.
Qed.

Lemma dict_get_set_all (k : str) (ks : list str) (d : dict) :
  dict_get k (set_all ks d) =
  if mem k ks then Some PLACEHOLDER else dict_get k d.
Proof.
  unfold set_all. revert d.
  induction ks as [|k0 ks IH]; intros d; simpl.
  - reflexivity.
  - rewrite IH, dict_get_set. unfold mem.
    destruct (str_eqb k k0); simpl.
    + now destruct (existsb (str_eqb k) ks).
    + reflexivity.
Qed.

Lemma keys_set_all (k : str) (ks : list str) (d : dict) :
  In k (keys (set_all ks d)) <-> In k ks \/ In k (keys d).
Proof.
  unfold set_all. revert d.
  induction ks as [|k0 ks IH]; intros d; simpl.
  - tauto.
  - rewrite IH, keys_dict_set. intuition congruence.
Qed.

(** ** fetch_url *)

Section Fetch.

Variable get : nat -> attempt_result.
Variable url : str.

(** The two events that are counted. *)
Let G : event := Get url REQUEST_TIMEOUT.
Let Z5 : event := Sleep RETRY_DELAY.

Lemma retryable_In (code : Z) :
  In code [429; 503; 443]%Z <-> retryable code = true.
Proof.
  unfold retryable. simpl. rewrite !orb_true_iff, !Z.eqb_eq.
  intuition congruence.
Qed.

Lemma retryable_not_200 (code : Z) :
  retryable code = true -> (code =? 200)%Z = false.
Proof.
  intros H. destruct (Z.eqb_spec code 200) as [->|]; [discriminate H|].
  reflexivity.
Qed.

Lemma gets_app (a b : list event) : gets (a ++ b) = gets a ++ gets b.
Proof. apply filter_app. Qed.

Lemma sleeps_app (a b : list event) :
  sleeps (a ++ b) = sleeps a ++ sleeps b.
Proof. apply filter_app. Qed.

Lemma last_app_nonempty (a b : list event) (d : event) :
  b <> [] -> last (a ++ b) d = last b d.
Proof.
  intros Hb. induction a as [|x a IH]; [reflexivity|].
  simpl. rewrite IH. destruct (a ++ b) eqn:E; [|reflexivity].
  apply app_eq_nil in E. tauto.
Qed.

(** A retried attempt costs one GET and one sleep, and the loop goes on
    with the next attempt. *)
Lemma fetch_loop_retried (attempt remaining : nat) :
  retried (get attempt) ->
  exists pre,
    fetch_loop get url attempt (S remaining) =
    (pre ++ fst (fetch_loop get url (S attempt) remaining),
     snd (fetch_loop get url (S attempt) remaining))
    /\ gets pre = [G] /\ sleeps pre = [Z5].
Proof.
  intros [He | [resp [He Hin]]]; cbn [fetch_loop]; rewrite He.
  - destruct (fetch_loop get url (S attempt) remaining) as [tr res].
    eexists ([_; _; _; _]). split; [reflexivity|]. split; reflexivity.
  - apply retryable_In in Hin.
    rewrite (retryable_not_200 _ Hin), Hin.
    destruct (fetch_loop get url (S attempt) remaining) as [tr res].
    eexists ([_; _; _; _; _]). split; [reflexivity|]. split; reflexivity.
Qed.

Lemma fetch_loop_200 (attempt remaining : nat) (r : response) :
  get attempt = Responds r -> status_code r = 200%Z ->
  fetch_loop get url attempt (S remaining) =
  ([Log INFO (MsgAttempt url (attempt + 1)); G], Some r).
Proof.
  intros He Hs. cbn [fetch_loop]. rewrite He, Hs. reflexivity.
Qed.

Lemma fetch_loop_succeeds_after (n : nat) :
  forall attempt remaining r,
    n < remaining ->
    (forall k, k < n -> retried (get (attempt + k))) ->
    get (attempt + n) = Responds r -> status_code r = 200%Z ->
    exists tr,
      fetch_loop get url attempt remaining = (tr, Some r)
      /\ gets tr = repeat G (S n)
      /\ sleeps tr = repeat Z5 n
      /\ last tr Z5 = G.
Proof.
  induction n as [|n IH]; intros attempt remaining r Hlt Hpre Hn Hs.
  - destruct remaining as [|remaining]; [lia|].
    rewrite Nat.add_0_r in Hn.
    rewrite (fetch_loop_200 _ _ _ Hn Hs).
    eexists. split; [reflexivity|]. repeat split; reflexivity.
  - destruct remaining as [|remaining]; [lia|].
    assert (H0 : retried (get attempt)).
    { rewrite <- (Nat.add_0_r attempt). apply Hpre. lia. }
    destruct (fetch_loop_retried attempt remaining H0)
      as [pre [Hstep [Hg Hz]]].
    destruct (IH (S attempt) remaining r) as [tr [Htr [Hg' [Hz' Hl]]]].
    + lia.
    + intros k Hk. replace (S attempt + k) with (attempt + S k) by lia.
      apply Hpre. lia.
    + replace (S attempt + n) with (attempt + S n) by lia. exact Hn.
    + exact Hs.
    + rewrite Hstep, Htr. simpl fst. simpl snd.
      exists (pre ++ tr). split; [reflexivity|].
      rewrite gets_app, sleeps_app, Hg, Hz, Hg', Hz'.
      split; [reflexivity|]. split; [reflexivity|].
      rewrite last_app_nonempty; [exact Hl|].
      intros ->. discriminate Hg'.
Qed.

Lemma fetch_loop_gives_up (remaining : nat) :
  forall attempt,
    (forall k, k < remaining -> retried (get (attempt + k))) ->
    exists tr,
      fetch_loop get url attempt remaining = (tr, None)
      /\ gets tr = repeat G remaining
      /\ sleeps tr = repeat Z5 remaining.
Proof.
  induction remaining as [|remaining IH]; intros attempt Hall.
  - eexists. split; [reflexivity|]. split; reflexivity.
  - assert (H0 : retried (get attempt)).
    { rewrite <- (Nat.add_0_r attempt). apply Hall. lia. }
    destruct (fetch_loop_retried attempt remaining H0)
      as [pre [Hstep [Hg Hz]]].
    destruct (IH (S attempt)) as [tr [Htr [Hg' Hz']]].
    + intros k Hk. replace (S attempt + k) with (attempt + S k) by lia.
      apply Hall. lia.
    + rewrite Hstep, Htr. simpl fst. simpl snd.
      exists (pre ++ tr). split; [reflexivity|].
      rewrite gets_app, sleeps_app, Hg, Hz, Hg', Hz'.
      split; reflexivity.
Qed.

(** Only a response with status 200 is ever returned. *)
Lemma fetch_loop_Some_200 (remaining : nat) :
  forall attempt tr r,
    fetch_loop get url attempt remaining = (tr, Some r) ->
    status_code r = 200%Z.
Proof.
  induction remaining as [|remaining IH]; intros attempt tr r H.
  - discriminate H.
  - cbn [fetch_loop] in H.
    destruct (get attempt) as [resp|].
    + destruct (Z.eqb_spec (status_code resp) 200) as [E|E].
      * injection H as _ ->. exact E.
      * destruct (retryable (status_code resp)); [|discriminate H].
        destruct (fetch_loop get url (S attempt) remaining)
          as [tr' res] eqn:E'.
        injection H as _ ->. eapply IH. exact E'.
    + destruct (fetch_loop get url (S attempt) remaining)
        as [tr' res] eqn:E'.
      injection H as _ ->. eapply IH. exact E'.
Qed.

End Fetch.

Lemma fetch_url_Some_200 (get : nat -> attempt_result) (url : str)
      (tr : list event) (r : response) :
  fetch_url get url = (tr, Some r) -> status_code r = 200%Z.
Proof. apply fetch_loop_Some_200. Qed.

Lemma fetch_url_Some_bool (get : nat -> attempt_result) (url : str)
      (tr : list event) (r : response) :
  fetch_url get url = (tr, Some r) -> response_bool r = true.
Proof.
  intros H. apply fetch_url_Some_200 in H.
  unfold response_bool. rewrite H. reflexivity.
Qed.

(** C1. When the first [N - 1] GET attempts of a call answer with status
    429, 503 or 443 and attempt [N] answers with status 200, for
    [1 <= N <= 50], [fetch_url] returns that response after exactly [N]
    GET attempts and [N - 1] sleeps of 5 seconds, and the successful GET is
    the last thing it does. *)
Theorem fetch_url_retries_until_200
        (get : nat -> attempt_result) (url : str) (N : nat) (r : response) :
  1 <= N <= MAX_RETRIES ->
  (forall k, k < N - 1 ->
             exists resp, get k = Responds resp
                          /\ In (status_code resp) [429; 503; 443]%Z) ->
  get (N - 1) = Responds r ->
  status_code r = 200%Z ->
  exists tr,
    fetch_url get url = (tr, Some r)
    /\ gets tr = repeat (Get url REQUEST_TIMEOUT) N
    /\ sleeps tr = repeat (Sleep RETRY_DELAY) (N - 1)
    /\ last tr (Sleep RETRY_DELAY) = Get url REQUEST_TIMEOUT
    /\ RETRY_DELAY = 5%Z.
Proof.
  intros [H1 HN] Hpre Hn Hs.
  destruct (fetch_loop_succeeds_after get url (N - 1) 0 MAX_RETRIES r)
    as [tr [Htr [Hg [Hz Hl]]]].
  - lia.
  - intros k Hk. right. apply Hpre. exact Hk.
  - exact Hn.
  - exact Hs.
  - exists tr. replace (S (N - 1)) with N in Hg by lia.
    unfold fetch_url. repeat split; assumption.
Qed.

(** Witness of C1: two busy answers, then the page. *)
Lemma fetch_url_retries_until_200_witness :
  exists tr,
    fetch_url busy_twice sample_url
    = (tr, Some (answer 200 page_without_table))
    /\ gets tr = repeat (Get sample_url REQUEST_TIMEOUT) 3
    /\ sleeps tr = repeat (Sleep RETRY_DELAY) 2
    /\ last tr (Sleep RETRY_DELAY) = Get sample_url REQUEST_TIMEOUT
    /\ RETRY_DELAY = 5%Z.
Proof.
  apply (fetch_url_retries_until_200 busy_twice sample_url 3).
  - unfold MAX_RETRIES. lia.
  - intros k Hk. destruct k as [|[|k]].
    + eexists. split; [reflexivity|]. simpl. tauto.
    + eexists. split; [reflexivity|]. simpl. tauto.
    + simpl in Hk. lia.
  - reflexivity.
  - reflexivity.
Defined.

(** C2. When every one of the 50 attempts of a call is answered with
    status 429 (or 503 or 443) or ends in a network-level exception,
    [fetch_url] performs exactly 50 GET attempts and returns [None]:
    exceptions and retryable statuses are counted against the same cap. *)
Theorem fetch_url_gives_up_after_50
        (get : nat -> attempt_result) (url : str) :
  (forall k, k < MAX_RETRIES -> retried (get k)) ->
  exists tr,
    fetch_url get url = (tr, None)
    /\ gets tr = repeat (Get url REQUEST_TIMEOUT) 50
    /\ List.length (gets tr) = 50
    /\ sleeps tr = repeat (Sleep RETRY_DELAY) 50.
Proof.
  intros Hall.
  destruct (fetch_loop_gives_up get url MAX_RETRIES 0 Hall)
    as [tr [Htr [Hg Hz]]].
  exists tr. unfold fetch_url. split; [exact Htr|].
  split; [exact Hg|]. split; [|exact Hz].
  rewrite Hg. apply repeat_length.
Qed.

(** Witness of C2: a server that alternates 429 and network errors. *)
Lemma fetch_url_gives_up_after_50_witness :
  exists tr,
    fetch_url never_available sample_url = (tr, None)
    /\ gets tr = repeat (Get sample_url REQUEST_TIMEOUT) 50
    /\ List.length (gets tr) = 50
    /\ sleeps tr = repeat (Sleep RETRY_DELAY) 50.
Proof.
  apply (fetch_url_gives_up_after_50 never_available sample_url).
  intros k _. unfold never_available, retried.
  destruct (Nat.even k).
  - right. eexists. split; [reflexivity|]. simpl. tauto.
  - left. reflexivity.
Defined.

(** C3. When the first answer has a status that is neither 200 nor one of
    429, 503 and 443, [fetch_url] returns [None] after exactly one GET
    attempt and without any sleep. *)
Theorem fetch_url_aborts_on_other_status
        (get : nat -> attempt_result) (url : str) (resp : response) :
  get 0 = Responds resp ->
  status_code resp <> 200%Z ->
  ~ In (status_code resp) [429; 503; 443]%Z ->
  exists tr,
    fetch_url get url = (tr, None)
    /\ gets tr = [Get url REQUEST_TIMEOUT]
    /\ sleeps tr = [].
Proof.
  intros Hg H200 Hretry.
  assert (Hstep : forall remaining,
             fetch_loop get url 0 (S remaining) =
             ([Log INFO (MsgAttempt url 1); Get url REQUEST_TIMEOUT;
               Log WARNING (MsgStatus (status_code resp) url);
               Log ERROR (MsgCritical (status_code resp))], None)).
  { intros remaining. cbn [fetch_loop]. rewrite Hg.
    apply Z.eqb_neq in H200. rewrite H200.
    destruct (retryable (status_code resp)) eqn:E.
    - apply retryable_In in E. contradiction.
    - reflexivity. }
  eexists. unfold fetch_url. split; [apply (Hstep 49)|].
  split; reflexivity.
Qed.

(** Witness of C3: a 404. *)
Lemma fetch_url_aborts_on_other_status_witness :
  exists tr,
    fetch_url not_found sample_url = (tr, None)
    /\ gets tr = [Get sample_url REQUEST_TIMEOUT]
    /\ sleeps tr = [].
Proof.
  apply (fetch_url_aborts_on_other_status
           not_found sample_url (answer 404 page_without_table)).
  - reflexivity.
  - simpl. discriminate.
  - simpl. intros [H|[H|[H|[]]]]; discriminate H.
Defined.

(** ** The cells of a data row *)

Section Cells.

Variable headers : list str.

Lemma write_cell_keys (d : dict) (ic : nat * str) (k : str) :
  In k (keys (write_cell headers d ic)) ->
  In k (keys d) \/ (In k headers /\ writable k = true).
Proof.
  destruct ic as [i c]. unfold write_cell.
  destruct (nth_error headers i) as [h|] eqn:E; [|tauto].
  fold (writable h). destruct (writable h) eqn:W; [|tauto].
  rewrite keys_dict_set. intros [-> | H]; [right | tauto].
  split; [eapply nth_error_In; exact E | exact W].
Qed.

Lemma write_cell_keys_mono (d : dict) (ic : nat * str) (k : str) :
  In k (keys d) -> In k (keys (write_cell headers d ic)).
Proof.
  destruct ic as [i c]. unfold write_cell.
  destruct (nth_error headers i) as [h|]; [|tauto].
  destruct (str_bool h && negb (contains COMPARE h)); [|tauto].
  rewrite keys_dict_set. tauto.
Qed.

Lemma write_cell_other (d : dict) (i : nat) (c k : str) :
  nth_error headers i <> Some k ->
  dict_get k (write_cell headers d (i, c)) = dict_get k d.
Proof.
  intros H. unfold write_cell.
  destruct (nth_error headers i) as [h|]; [|reflexivity].
  destruct (str_bool h && negb (contains COMPARE h)); [|reflexivity].
  apply dict_get_set_neq. congruence.
Qed.

Lemma write_cell_unwritable (d : dict) (ic : nat * str) (k : str) :
  writable k = false ->
  dict_get k (write_cell headers d ic) = dict_get k d.
Proof.
  intros W. destruct ic as [i c]. unfold write_cell.
  destruct (nth_error headers i) as [h|]; [|reflexivity].
  fold (writable h). destruct (writable h) eqn:Wh; [|reflexivity].
  apply dict_get_set_neq. congruence.
Qed.

Lemma write_cell_hit (d : dict) (i : nat) (c h : str) :
  nth_error headers i = Some h -> writable h = true ->
  dict_get h (write_cell headers d (i, c)) = Some (re_sub_spaces (strip c)).
Proof.
  intros E W. unfold write_cell. rewrite E.
  fold (writable h). rewrite W. apply dict_get_set_eq.
Qed.

Lemma fold_write_keys (l : list (nat * str)) :
  forall d k,
    In k (keys (fold_left (write_cell headers) l d)) ->
    In k (keys d) \/ (In k headers /\ writable k = true).
Proof.
  induction l as [|ic l IH]; intros d k H; simpl in H; [tauto|].
  apply IH in H. destruct H as [H|H]; [|tauto].
  apply write_cell_keys in H. exact H.
Qed.

Lemma fold_write_keys_mono (l : list (nat * str)) :
  forall d k,
    In k (keys d) -> In k (keys (fold_left (write_cell headers) l d)).
Proof.
  induction l as [|ic l IH]; intros d k H; simpl; [exact H|].
  apply IH. apply write_cell_keys_mono. exact H.
Qed.

Lemma fold_write_other (l : list (nat * str)) :
  forall d k,
    (forall i c, In (i, c) l -> nth_error headers i <> Some k) ->
    dict_get k (fold_left (write_cell headers) l d) = dict_get k d.
Proof.
  induction l as [|[i c] l IH]; intros d k H; simpl; [reflexivity|].
  rewrite IH.
  - apply write_cell_other. apply (H i c). now left.
  - intros j c' Hin. apply (H j c'). now right.
Qed.

Lemma fold_write_unwritable (l : list (nat * str)) :
  forall d k,
    writable k = false ->
    dict_get k (fold_left (write_cell headers) l d) = dict_get k d.
Proof.
  induction l as [|ic l IH]; intros d k W; simpl; [reflexivity|].
  rewrite IH by exact W. apply write_cell_unwritable. exact W.
Qed.

Lemma combine_seq_bounds {A : Type} (l : list A) :
  forall a n j c, In (j, c) (combine (seq a n) l) -> a <= j < a + n.
Proof.
  induction l as [|x l IH]; intros a n j c H.
  - destruct n; contradiction H.
  - destruct n as [|n]; [contradiction H|].
    simpl in H. destruct H as [H|H].
    + injection H as -> _. lia.
    + apply IH in H. lia.
Qed.

Lemma enumerate_split {A : Type} (l1 : list A) (c : A) (l2 : list A) :
  forall a,
    combine (seq a (List.length (l1 ++ c :: l2))) (l1 ++ c :: l2) =
    combine (seq a (List.length l1)) l1
    ++ (a + List.length l1, c)
    :: combine (seq (S (a + List.length l1)) (List.length l2)) l2.
Proof.
  induction l1 as [|x l1 IH]; intros a; simpl.
  - rewrite Nat.add_0_r. reflexivity.
  - rewrite IH. replace (S a + List.length l1) with (a + S (List.length l1))
      by lia. reflexivity.
Qed.

(** The cell at position [i] lands under header [i], unless a later cell
    of the row has a header of the same name. *)
Lemma write_cells_lookup (columns : list str) (d : dict)
      (i : nat) (h c : str) :
  nth_error headers i = Some h ->
  nth_error columns i = Some c ->
  writable h = true ->
  (forall j, i < j -> j < List.length columns ->
             nth_error headers j <> Some h) ->
  dict_get h (write_cells headers columns d) = Some (re_sub_spaces (strip c)).
Proof.
  intros Eh Ec W Hlast.
  destruct (nth_error_split columns i Ec) as [l1 [l2 [-> Hlen]]].
  unfold write_cells, enumerate.
  rewrite enumerate_split, fold_left_app. simpl fold_left.
  rewrite fold_write_other.
  - rewrite Hlen. simpl. apply write_cell_hit; assumption.
  - intros j c' Hin. apply combine_seq_bounds in Hin.
    apply Hlast; [lia|]. rewrite length_app. simpl. lia.
Qed.

Lemma write_cells_keys (columns : list str) (d : dict) (k : str) :
  In k (keys (write_cells headers columns d)) ->
  In k (keys d) \/ (In k headers /\ writable k = true).
Proof. apply fold_write_keys. Qed.

Lemma write_cells_keys_mono (columns : list str) (d : dict) (k : str) :
  In k (keys d) -> In k (keys (write_cells headers columns d)).
Proof. apply fold_write_keys_mono. Qed.

Lemma write_cells_not_header (columns : list str) (d : dict) (k : str) :
  ~ (In k headers /\ writable k = true) ->
  dict_get k (write_cells headers columns d) = dict_get k d.
Proof.
  intros H. destruct (writable k) eqn:W.
  - apply fold_write_other. intros i c _ E.
    apply H. split; [eapply nth_error_In; exact E | reflexivity].
  - apply fold_write_unwritable. exact W.
Qed.

End Cells.

(** ** The loop over the rows *)

Lemma process_rows_emitted (headers : list str) (rows : list row) :
  forall data w,
    all_data (snd (process_rows headers rows (data, w)))
    = all_data w ++ emitted headers rows data
    /\ same_outside_all_data w (snd (process_rows headers rows (data, w))).
Proof.
  unfold process_rows.
  induction rows as [|r rows IH]; intros data w; simpl.
  - rewrite app_nil_r. unfold same_outside_all_data. tauto.
  - destruct (find_th_colspan r) as [th|].
    + apply IH.
    + destruct (IH (reset_fields (write_cells headers (find_all_td r) data))
                   (append_record
                      (write_cells headers (find_all_td r) data) w))
        as [Hd Hs].
      rewrite Hd. simpl. rewrite <- app_assoc. split; [reflexivity|].
      exact Hs.
Qed.

Lemma emitted_length (headers : list str) (rows : list row) :
  Forall (fun r => find_th_colspan r = None) rows ->
  forall data, List.length (emitted headers rows data) = List.length rows.
Proof.
  induction 1 as [|r rows Hr _ IH]; intros data; simpl.
  - reflexivity.
  - rewrite Hr. simpl. now rewrite IH.
Qed.

Section Rows.

Variable headers : list str.
(** The dictionary that the caller passed in. *)
Variable context : dict.

Local Abbreviation loop_invariant := (rows_invariant headers context).

Lemma loop_invariant_start : loop_invariant (set_placeholders context).
Proof.
  unfold set_placeholders. repeat split.
  - intros k H. apply keys_set_all. tauto.
  - intros k H. apply keys_set_all in H. tauto.
  - intros k _ Ht _. rewrite dict_get_set_all.
    apply mem_not_In in Ht. now rewrite Ht.
Qed.

Lemma loop_invariant_section (d : dict) (label : str) :
  loop_invariant d -> loop_invariant (dict_set K_SECTION label d).
Proof.
  intros [H1 [H2 H3]]. repeat split.
  - intros k H. apply keys_dict_set. right. now apply H1.
  - intros k H. apply keys_dict_set in H. destruct H as [->|H].
    + right. left. simpl. tauto.
    + now apply H2.
  - intros k Hh Ht Hr. rewrite dict_get_set_neq; [now apply H3|].
    intros ->. apply Ht. simpl. tauto.
Qed.

Lemma loop_invariant_written (d : dict) (columns : list str) :
  loop_invariant d -> loop_invariant (write_cells headers columns d).
Proof.
  intros [H1 [H2 H3]]. repeat split.
  - intros k H. apply write_cells_keys_mono. now apply H1.
  - intros k H. apply write_cells_keys in H. destruct H as [H|H].
    + now apply H2.
    + tauto.
  - intros k Hh Ht Hr. rewrite write_cells_not_header by tauto.
    now apply H3.
Qed.

Lemma loop_invariant_reset (d : dict) :
  loop_invariant d -> loop_invariant (reset_fields d).
Proof.
  intros [H1 [H2 H3]]. unfold reset_fields. repeat split.
  - intros k H. apply keys_set_all. right. now apply H1.
  - intros k H. apply keys_set_all in H. destruct H as [H|H].
    + tauto.
    + now apply H2.
  - intros k Hh Ht Hr. rewrite dict_get_set_all.
    pose proof Hr as Hr'. apply mem_not_In in Hr'. rewrite Hr'.
    now apply H3.
Qed.

(** Without section rows, record [j] is row [j] written over a dictionary
    that satisfies the invariant. *)
Lemma emitted_nth (rows : list row) :
  Forall (fun r => find_th_colspan r = None) rows ->
  forall d j r rec,
    loop_invariant d ->
    nth_error rows j = Some r ->
    nth_error (emitted headers rows d) j = Some rec ->
    exists d', loop_invariant d'
               /\ rec = write_cells headers (find_all_td r) d'.
Proof.
  induction 1 as [|r0 rows Hr0 _ IH]; intros d j r rec Hinv Hr Hrec.
  - destruct j; discriminate Hr.
  - simpl in Hrec. rewrite Hr0 in Hrec. destruct j as [|j]; simpl in *.
    + injection Hr as <-. injection Hrec as <-. exists d. tauto.
    + eapply IH; [| exact Hr | exact Hrec].
      apply loop_invariant_reset, loop_invariant_written. exact Hinv.
Qed.

End Rows.

Lemma fixed_fields_without_compare (k : str) :
  In k TRIM_FIELDS \/ In k RESET_FIELDS -> contains COMPARE k = false.
Proof.
  intros [H|H]; simpl in H;
    repeat (destruct H as [H|H]; [subst k; reflexivity|]); contradiction H.
Qed.

(** ** parse_car_generation_page *)

Lemma parse_car_generation_page_fetched
      (web : str -> nat -> attempt_result) (clock : nat -> Q)
      (disk : nat -> write_outcome) (url : str) (data : dict) (w : world)
      (tr : list event) (r : response) :
  fetch_url (web url) url = (tr, Some r) ->
  parse_car_generation_page web clock disk url data w =
  let tr0 := (Log INFO (MsgGenerationRequest url) :: tr)
               ++ [Log INFO MsgGenerationFetched] in
  match find_trim_table (text r) with
  | None => (Returns, append_record (set_placeholders data) w, tr0)
  | Some [] => (Raises IndexError, w, tr0)
  | Some (first :: rest) =>
    let '(_, w1) :=
      process_rows (map strip (find_all_th first)) rest
                   (set_placeholders data, w) in
    let '(w2, saved) := periodic_save clock disk w1 in
    (Returns, w2, tr0 ++ saved)
  end.
Proof.
  intros H. unfold parse_car_generation_page.
  rewrite H, (fetch_url_Some_bool _ _ _ _ H). simpl negb. cbv iota.
  destruct (find_trim_table (text r)) as [[|first rest]|]; reflexivity.
Qed.

Lemma periodic_save_all_data (clock : nat -> Q)
      (disk : nat -> write_outcome) (w : world) :
  all_data (fst (periodic_save clock disk w)) = all_data w.
Proof.
  unfold periodic_save, time_time, save_data_to_excel. simpl.
  destruct (Qle_bool _ _); [|reflexivity].
  destruct (disk (disk_writes w)); reflexivity.
Qed.

(** C4. A generation page that was fetched and has no table matching the
    selector makes [parse_car_generation_page] append exactly one record
    and nothing else: the dictionary it was given, with each of the six
    trim fields of lines 174-179 set to the placeholder and every other
    field as it was. *)
Theorem generation_page_without_table_appends_fallback
        (web : str -> nat -> attempt_result) (clock : nat -> Q)
        (disk : nat -> write_outcome) (url : str) (data : dict) (w : world)
        (tr : list event) (r : response) :
  fetch_url (web url) url = (tr, Some r) ->
  find_trim_table (text r) = None ->
  exists w' tr' rec,
    parse_car_generation_page web clock disk url data w = (Returns, w', tr')
    /\ all_data w' = all_data w ++ [rec]
    /\ same_outside_all_data w w'
    /\ (forall k, dict_get k rec =
                  if mem k TRIM_FIELDS then Some PLACEHOLDER
                  else dict_get k data)
    /\ (forall k, In k (keys rec) <-> In k TRIM_FIELDS \/ In k (keys data)).
Proof.
  intros Hfetch Htable.
  rewrite (parse_car_generation_page_fetched _ clock disk _ data w _ _ Hfetch).
  rewrite Htable. cbv zeta.
  do 3 eexists. split; [reflexivity|].
  split; [reflexivity|].
  split; [unfold same_outside_all_data; simpl; tauto|].
  split.
  - intros k. apply dict_get_set_all.
  - intros k. apply keys_set_all.
Qed.

(** Witness of C4. *)
Lemma generation_page_without_table_appends_fallback_witness :
  exists w' tr' rec,
    parse_car_generation_page web_without_table idle_clock good_disk
                              sample_url sample_data empty_world
    = (Returns, w', tr')
    /\ all_data w' = all_data empty_world ++ [rec]
    /\ same_outside_all_data empty_world w'
    /\ (forall k, dict_get k rec =
                  if mem k TRIM_FIELDS then Some PLACEHOLDER
                  else dict_get k sample_data)
    /\ (forall k, In k (keys rec)
                  <-> In k TRIM_FIELDS \/ In k (keys sample_data)).
Proof.
  eapply (generation_page_without_table_appends_fallback
            web_without_table idle_clock good_disk sample_url sample_data
            empty_world _ (answer 200 page_without_table)).
  - vm_compute. reflexivity.
  - reflexivity.
Defined.

(** C5. A generation page whose table has a header row and [R] further
    rows, none of them a section-header row, makes
    [parse_car_generation_page] append exactly [R] records. Record [j] maps
    every cell of row [j] to the header at the same position (the last such
    cell, when a header name occurs twice; cells beyond the headers and
    cells under a header that is empty or contains the comparison label are
    dropped), with white space stripped and collapsed; it has every key of
    the ancestor context, with the value of the context unless a header or
    a fixed field has the same name; and, the context having no such key,
    no key of a record contains the comparison label. *)
Theorem generation_page_table_appends_one_record_per_row
        (web : str -> nat -> attempt_result) (clock : nat -> Q)
        (disk : nat -> write_outcome) (url : str) (data : dict) (w : world)
        (tr : list event) (r : response) (first : row) (rows : list row) :
  fetch_url (web url) url = (tr, Some r) ->
  find_trim_table (text r) = Some (first :: rows) ->
  Forall (fun x => find_th_colspan x = None) rows ->
  Forall (fun k => contains COMPARE k = false) (keys data) ->
  exists w' tr' recs,
    parse_car_generation_page web clock disk url data w = (Returns, w', tr')
    /\ all_data w' = all_data w ++ recs
    /\ List.length recs = List.length rows
    /\ forall j x rec,
        nth_error rows j = Some x -> nth_error recs j = Some rec ->
        let headers := map strip (find_all_th first) in
        (forall i h c,
            nth_error headers i = Some h ->
            nth_error (find_all_td x) i = Some c ->
            writable h = true ->
            (forall i', i < i' -> i' < List.length (find_all_td x) ->
                        nth_error headers i' <> Some h) ->
            dict_get h rec = Some (re_sub_spaces (strip c)))
        /\ (forall k, In k (keys data) -> In k (keys rec))
        /\ (forall k, ~ In k headers -> ~ In k TRIM_FIELDS ->
                      ~ In k RESET_FIELDS ->
                      dict_get k rec = dict_get k data)
        /\ (forall k, In k (keys rec) ->
                      In k (keys data) \/ In k TRIM_FIELDS
                      \/ In k RESET_FIELDS
                      \/ (In k headers /\ writable k = true))
        /\ (forall k, In k (keys rec) -> contains COMPARE k = false).
Proof.
  intros Hfetch Htable Hrows Hctx.
  rewrite (parse_car_generation_page_fetched _ clock disk _ data w _ _ Hfetch).
  rewrite Htable. cbv zeta.
  set (headers := map strip (find_all_th first)).
  destruct (process_rows_emitted headers rows (set_placeholders data) w)
    as [Hdata _].
  destruct (process_rows headers rows (set_placeholders data, w))
    as [d1 w1]. simpl snd in Hdata.
  pose proof (periodic_save_all_data clock disk w1) as Hsave.
  destruct (periodic_save clock disk w1) as [w2 saved]. simpl fst in Hsave.
  exists w2, (((Log INFO (MsgGenerationRequest url) :: tr)
                 ++ [Log INFO MsgGenerationFetched]) ++ saved),
         (emitted headers rows (set_placeholders data)).
  split; [reflexivity|].
  split; [congruence|].
  split; [now apply emitted_length|].
  intros j x rec Hx Hrec.
  destruct (emitted_nth headers data rows Hrows _ j x rec
                        (loop_invariant_start headers data) Hx Hrec)
    as [d' [Hinv ->]].
  pose proof (loop_invariant_written headers data d' (find_all_td x) Hinv)
    as [K1 [K2 K3]].
  split; [|split; [|split; [|split]]].
  - intros i h c Hh Hc Hw Hlast. now apply write_cells_lookup with (i := i).
  - exact K1.
  - exact K3.
  - exact K2.
  - intros k Hk. apply K2 in Hk.
    destruct Hk as [Hk|[Hk|[Hk|[_ Hk]]]].
    + rewrite Forall_forall in Hctx. now apply Hctx.
    + apply fixed_fields_without_compare. now left.
    + apply fixed_fields_without_compare. now right.
    + unfold writable in Hk. apply andb_true_iff in Hk.
      destruct Hk as [_ Hk]. now apply negb_true_iff in Hk.
Qed.

(** The contexts that the stages above the generation page build have no
    key with the comparison label. *)
Lemma pipeline_context_without_compare
      (car_type car_brand care_model country description : str) :
  Forall (fun k => contains COMPARE k = false)
         (keys (dict_set K_DESCRIPTION description
                  (dict_set K_COUNTRY country
                     (model_data (brand_data car_type car_brand)
                                 care_model)))).
Proof. repeat constructor. Qed.

(** Witness of C5: the sample table, two data rows under four headers. *)
Lemma generation_page_table_appends_one_record_per_row_witness :
  exists w' tr' recs,
    parse_car_generation_page web_with_table idle_clock good_disk
                              sample_url sample_data empty_world
    = (Returns, w', tr')
    /\ all_data w' = all_data empty_world ++ recs
    /\ List.length recs = 2
    /\ forall j x rec,
        nth_error (tl sample_table) j = Some x ->
        nth_error recs j = Some rec ->
        let headers := map strip (find_all_th (hd [] sample_table)) in
        (forall i h c,
            nth_error headers i = Some h ->
            nth_error (find_all_td x) i = Some c ->
            writable h = true ->
            (forall i', i < i' -> i' < List.length (find_all_td x) ->
                        nth_error headers i' <> Some h) ->
            dict_get h rec = Some (re_sub_spaces (strip c)))
        /\ (forall k, In k (keys sample_data) -> In k (keys rec))
        /\ (forall k, ~ In k headers -> ~ In k TRIM_FIELDS ->
                      ~ In k RESET_FIELDS ->
                      dict_get k rec = dict_get k sample_data)
        /\ (forall k, In k (keys rec) ->
                      In k (keys sample_data) \/ In k TRIM_FIELDS
                      \/ In k RESET_FIELDS
                      \/ (In k headers /\ writable k = true))
        /\ (forall k, In k (keys rec) -> contains COMPARE k = false).
Proof.
  eapply (generation_page_table_appends_one_record_per_row
            web_with_table idle_clock good_disk sample_url sample_data
            empty_world _ (answer 200 page_with_table)
            (hd [] sample_table) (tl sample_table)).
  - vm_compute. reflexivity.
  - reflexivity.
  - repeat constructor.
  - repeat constructor.
Defined.

Example sample_table_records :
  map (dict_get K_TRIM)
      (all_data (snd (fst (parse_car_generation_page
                             web_with_table idle_clock good_disk
                             sample_url sample_data empty_world))))
  = [Some (py "2.0 AT Standard"); Some (py "2.5 AT Prestige")].
Proof. vm_compute. reflexivity. Qed.

(** C6, as stated, fails: in a table with a column outside the fixed
    fields, the value that the first data row wrote under that column is
    still there when the second, shorter, row is emitted. *)
Lemma unlisted_field_is_carried_forward :
  map find_all_td (tl short_row_table)
  = [[py "Base"; py "4WD"]; [py "Lux"]]
  /\ map (dict_get K_DRIVE)
         (all_data (snd (fst (parse_car_generation_page
                                web_short_row idle_clock good_disk
                                sample_url sample_data empty_world))))
     = [Some (py "4WD"); Some (py "4WD")]
  /\ dict_get K_DRIVE
       (fst (process_row (map strip (find_all_th (hd [] short_row_table)))
                         (set_placeholders sample_data, empty_world)
                         [Td (py "Base"); Td (py "4WD")]))
     <> Some PLACEHOLDER
  /\ K_DRIVE <> K_SECTION.
Proof.
  split; [vm_compute; reflexivity|].
  split; [vm_compute; reflexivity|].
  split; vm_compute; discriminate.
Qed.

(** C6, amended. After a data row is appended, each of the six fields of
    the fixed list of lines 209-214 is the placeholder before the next row
    is processed, and the section label is the one of the record just
    appended; when every header that is written belongs to that list, the
    dictionary is then the one from before the row with those six fields
    reset, so that nothing of the row is carried forward. A section-header
    row sets the section label, leaves every other field and appends
    nothing. *)
Theorem data_row_resets_fixed_fields
        (headers : list str) (data : dict) (w : world) (r s : row)
        (th : str) :
  find_th_colspan r = None ->
  find_th_colspan s = Some th ->
  let rec := write_cells headers (find_all_td r) data in
  let after_r := process_row headers (data, w) r in
  let after_s := process_row headers (data, w) s in
  all_data (snd after_r) = all_data w ++ [rec]
  /\ (forall k, In k RESET_FIELDS ->
                dict_get k (fst after_r) = Some PLACEHOLDER)
  /\ dict_get K_SECTION (fst after_r) = dict_get K_SECTION rec
  /\ ((forall h, In h headers -> writable h = true -> In h RESET_FIELDS) ->
      dict_get K_SECTION (fst after_r) = dict_get K_SECTION data
      /\ forall k, dict_get k (fst after_r) = dict_get k (reset_fields data))
  /\ snd after_s = w
  /\ dict_get K_SECTION (fst after_s) = Some (strip th)
  /\ (forall k, k <> K_SECTION ->
                dict_get k (fst after_s) = dict_get k data).
Proof.
  intros Hr Hs rec after_r after_s.
  subst after_r after_s. unfold process_row. rewrite Hr, Hs.
  fold rec. simpl fst. simpl snd.
  split; [reflexivity|].
  split.
  { intros k Hk. unfold reset_fields. rewrite dict_get_set_all.
    apply mem_In in Hk. now rewrite Hk. }
  split.
  { unfold reset_fields. rewrite dict_get_set_all. reflexivity. }
  split.
  { intros Hheaders.
    assert (Hall : forall k, dict_get k (reset_fields rec)
                             = dict_get k (reset_fields data)).
    { intros k. unfold reset_fields. rewrite !dict_get_set_all.
      destruct (mem k RESET_FIELDS) eqn:E; [reflexivity|].
      apply write_cells_not_header. intros [Hin Hw].
      apply mem_not_In in E. apply E. now apply Hheaders. }
    split; [|exact Hall].
    rewrite Hall. unfold reset_fields. rewrite dict_get_set_all.
    reflexivity. }
  split; [reflexivity|].
  split; [apply dict_get_set_eq|].
  intros k Hk. now apply dict_get_set_neq.
Qed.

(** Witness of C6, amended: the headers of the sample table, its first
    data row and a section row. *)
Lemma data_row_resets_fixed_fields_witness :
  let headers := map strip (find_all_th (hd [] sample_table)) in
  let data := set_placeholders sample_data in
  let r := hd [] (tl sample_table) in
  let rec := write_cells headers (find_all_td r) data in
  let after_r := process_row headers (data, empty_world) r in
  let after_s := process_row headers (data, empty_world) section_row in
  all_data (snd after_r) = all_data empty_world ++ [rec]
  /\ (forall k, In k RESET_FIELDS ->
                dict_get k (fst after_r) = Some PLACEHOLDER)
  /\ dict_get K_SECTION (fst after_r) = dict_get K_SECTION rec
  /\ dict_get K_SECTION (fst after_r) = dict_get K_SECTION data
  /\ (forall k, dict_get k (fst after_r) = dict_get k (reset_fields data))
  /\ snd after_s = empty_world
  /\ dict_get K_SECTION (fst after_s) = Some (strip (py " Седан "))
  /\ (forall k, k <> K_SECTION ->
                dict_get k (fst after_s) = dict_get k data).
Proof.
  destruct (data_row_resets_fixed_fields
              (map strip (find_all_th (hd [] sample_table)))
              (set_placeholders sample_data) empty_world
              (hd [] (tl sample_table)) section_row (py " Седан ")
              eq_refl eq_refl)
    as [H1 [H2 [H3 [H4 [H5 [H6 H7]]]]]].
  assert (Hheaders :
            forall h, In h (map strip (find_all_th (hd [] sample_table))) ->
                      writable h = true -> In h RESET_FIELDS).
  { intros h Hin Hw. vm_compute in Hin.
    destruct Hin as [<-|[<-|[<-|[<-|[]]]]];
      try (vm_compute; tauto); vm_compute in Hw; discriminate Hw. }
  destruct (H4 Hheaders) as [H4a H4b].
  repeat split; assumption.
Defined.

(** ** The subtraction of line 218 *)

Lemma round_half_even_ge (a b : Z) : (a / b <= round_half_even a b)%Z.
Proof.
  unfold round_half_even.
  destruct (2 * (a mod b) ?= b)%Z; [destruct (Z.even (a / b))| |]; lia.
Qed.

Lemma exponent_lower_bound (P : Z) (q : positive) :
  (0 < P)%Z ->
  let e0 := (Z.log2 P - Z.log2 (Zpos q))%Z in
  let e := if pow2_le e0 P (Zpos q) then e0 else (e0 - 1)%Z in
  (0 <= e)%Z -> (Zpos q * 2 ^ e <= P)%Z.
Proof.
  intros HP e0 e. subst e. unfold pow2_le.
  destruct (Z.leb_spec 0 e0) as [H0|H0].
  - destruct (Z.leb_spec (Zpos q * 2 ^ e0) P) as [Hle|Hgt]; intros He.
    + exact Hle.
    + pose proof (Z.log2_spec P HP) as [HP1 _].
      pose proof (Z.log2_spec (Zpos q) (Pos2Z.is_pos q)) as [_ Hq2].
      pose proof (Z.log2_nonneg (Zpos q)) as Hlq.
      assert (E : (2 ^ Z.log2 P = 2 ^ Z.succ (Z.log2 (Zpos q)) * 2 ^ (e0 - 1))%Z).
      { rewrite <- Z.pow_add_r by lia. f_equal. subst e0. lia. }
      assert (Hpos : (0 < 2 ^ (e0 - 1))%Z) by (apply Z.pow_pos_nonneg; lia).
      nia.
  - destruct (Zpos q <=? P * 2 ^ (- e0))%Z; intros He; lia.
Qed.

(** Rounding to the nearest double does not take a difference of at least
    20 seconds below 20: 20 is a double. *)
Lemma round_double_due (x : Q) :
  (20 <= x)%Q -> (20 <= round_double x)%Q.
Proof.
  destruct x as [P q]. unfold Qle. cbn [Qnum Qden]. intros H.
  assert (HP : (0 < P)%Z) by lia.
  unfold round_double. cbn [Qnum Qden].
  rewrite (Z.abs_eq P) by lia.
  destruct (Z.eqb_spec P 0) as [E0|_]; [lia|].
  rewrite (Z.sgn_pos P HP).
  pose proof (exponent_lower_bound P q HP) as He. cbv zeta in He.
  remember (if pow2_le (Z.log2 P - Z.log2 (Z.pos q)) P (Z.pos q)
            then (Z.log2 P - Z.log2 (Z.pos q))%Z
            else (Z.log2 P - Z.log2 (Z.pos q) - 1)%Z) as e eqn:Ee.
  clear Ee. remember (e - 52)%Z as t eqn:Et.
  destruct (Z.leb_spec 0 t) as [Ht|Ht].
  - pose proof (round_half_even_ge P (Zpos q * 2 ^ t)) as Hn.
    cbn [inject_Z Qnum Qden].
    assert (Hpow : (0 < 2 ^ t)%Z) by (apply Z.pow_pos_nonneg; lia).
    destruct (Z_le_gt_dec t 2) as [Hsmall|Hbig].
    + assert (Hd : exists d k, (2 ^ t = d /\ d * k = 20 /\ 0 < d)%Z).
      { assert (Hc : t = 0%Z \/ t = 1%Z \/ t = 2%Z) by lia.
        destruct Hc as [-> | [-> | ->]];
          [exists 1%Z, 20%Z | exists 2%Z, 10%Z | exists 4%Z, 5%Z];
          repeat split; reflexivity. }
      destruct Hd as [d [k [Hd [Hdk Hd0]]]]. rewrite Hd in *.
      assert (Hk : (k <= P / (Zpos q * d))%Z).
      { apply Z.div_le_lower_bound; nia. }
      nia.
    + assert (Hq : (Zpos q * 2 ^ e <= P)%Z) by (apply He; lia).
      assert (E : (2 ^ e = 2 ^ t * 2 ^ 52)%Z).
      { rewrite <- Z.pow_add_r by lia. f_equal. lia. }
      assert (Hk : (2 ^ 52 <= P / (Zpos q * 2 ^ t))%Z).
      { apply Z.div_le_lower_bound; [lia|]. rewrite E in Hq. lia. }
      assert (H52 : (20 <= 2 ^ 52)%Z) by (cbn; lia).
      nia.
  - pose proof (round_half_even_ge (P * 2 ^ (- t)) (Zpos q)) as Hn.
    cbn [Qnum Qden].
    assert (Hpow : (0 < 2 ^ (- t))%Z) by (apply Z.pow_pos_nonneg; lia).
    rewrite Z2Pos.id by exact Hpow.
    assert (Hk : (20 * 2 ^ (- t) <= P * 2 ^ (- t) / Zpos q)%Z).
    { apply Z.div_le_lower_bound; [lia|]. nia. }
    lia.
Qed.

Lemma float_sub_due (a b : Q) :
  (SAVE_INTERVAL <= a - b)%Q ->
  Qle_bool SAVE_INTERVAL (float_sub a b) = true.
Proof.
  intros H. apply Qle_bool_iff. unfold float_sub.
  apply round_double_due. exact H.
Qed.

(** The rounding is seen at the threshold: with the last save at
    [1 + 2^-52] and the clock at 21, the difference is below 20 and the
    double nearest to it is 20, so that the save is due. *)
Example difference_rounds_up_to_the_interval :
  let last := (1 + (1 # 4503599627370496))%Q in
  (round_double last == last)%Q
  /\ Qle_bool SAVE_INTERVAL (21 - last) = false
  /\ (float_sub 21 last == 20)%Q
  /\ Qle_bool SAVE_INTERVAL (float_sub 21 last) = true.
Proof. vm_compute. repeat split; reflexivity. Qed.

(** ** The periodic save *)

(** C7, as stated, fails: a task whose page has no table, or whose fetch
    failed, ends while 100 seconds have passed since the last save, and
    nothing is written, the clock is not even read and the time of the last
    save stays what it was. *)
Lemma no_save_check_without_table :
  (SAVE_INTERVAL
   <= late_clock (clock_reads empty_world) - last_save_time empty_world)%Q
  /\ (let w' := snd (fst (parse_car_generation_page
                            web_without_table late_clock good_disk
                            sample_url sample_data empty_world)) in
      List.length (all_data w') = 1
      /\ file w' = None
      /\ last_save_time w' = last_save_time empty_world
      /\ clock_reads w' = 0 /\ disk_writes w' = 0)
  /\ (let w' := snd (fst (parse_car_generation_page
                            web_not_found late_clock good_disk
                            sample_url sample_data empty_world)) in
      file w' = None
      /\ last_save_time w' = last_save_time empty_world
      /\ clock_reads w' = 0 /\ disk_writes w' = 0).
Proof.
  split; [vm_compute; discriminate|].
  split; vm_compute; repeat split; reflexivity.
Qed.

(** C7, amended. When the next reading of the clock is 20 seconds or more
    after the last save, a generation-page task that fetched its
    page and found a table with a first row ends with the save done (the
    file is the snapshot of the accumulator when the write succeeds, and
    what the failed write left otherwise) and with the time of the last
    save set to the clock reading taken after the save; a task whose fetch
    failed or whose page has no such table ends with the file, the write
    count and the time of the last save untouched. *)
Theorem save_check_only_after_rows
        (web : str -> nat -> attempt_result) (clock : nat -> Q)
        (disk : nat -> write_outcome) (url : str) (data : dict) (w : world) :
  (SAVE_INTERVAL <= clock (clock_reads w) - last_save_time w)%Q ->
  let w' :=
    snd (fst (parse_car_generation_page web clock disk url data w)) in
  if reaches_save_check (snd (fetch_url (web url) url))
  then last_save_time w' = clock (S (clock_reads w))
       /\ clock_reads w' = S (S (clock_reads w))
       /\ disk_writes w' = S (disk_writes w)
       /\ file w' = match disk (disk_writes w) with
                    | Written => Some (make_DataFrame (all_data w'))
                    | WriteFails remains => remains
                    end
  else last_save_time w' = last_save_time w
       /\ file w' = file w
       /\ clock_reads w' = clock_reads w
       /\ disk_writes w' = disk_writes w.
Proof.
  intros Hdue w'. subst w'.
  destruct (fetch_url (web url) url) as [tr [r|]] eqn:Hf.
  - rewrite (parse_car_generation_page_fetched _ clock disk _ data w _ _ Hf).
    simpl snd at 1. unfold reaches_save_check.
    destruct (find_trim_table (text r)) as [[|first rest]|]; cbv zeta.
    + simpl. tauto.
    + destruct (process_rows_emitted (map strip (find_all_th first)) rest
                                     (set_placeholders data) w)
        as [_ [Ht [Hfile [Hc Hw]]]].
      destruct (process_rows (map strip (find_all_th first)) rest
                             (set_placeholders data, w)) as [d1 w1].
      simpl snd in Ht, Hfile, Hc, Hw.
      unfold periodic_save, time_time. cbn [last_save_time].
      rewrite Hc, Ht. rewrite (float_sub_due _ _ Hdue).
      unfold save_data_to_excel. cbn [disk_writes all_data]. rewrite Hw.
      destruct (disk (disk_writes w)); simpl; repeat split; reflexivity.
    + simpl. tauto.
  - unfold parse_car_generation_page. rewrite Hf. simpl. tauto.
Qed.

(** Witness of C7, amended: the sample table, 100 seconds after the last
    save. *)
Lemma save_check_only_after_rows_witness :
  let w' := snd (fst (parse_car_generation_page
                        web_with_table late_clock good_disk
                        sample_url sample_data empty_world)) in
  last_save_time w' = 100%Q
  /\ clock_reads w' = 2
  /\ disk_writes w' = 1
  /\ file w' = Some (make_DataFrame (all_data w')).
Proof.
  assert (Hdue : (SAVE_INTERVAL
                  <= late_clock (clock_reads empty_world)
                     - last_save_time empty_world)%Q).
  { vm_compute. discriminate. }
  exact (save_check_only_after_rows
           web_with_table late_clock good_disk sample_url sample_data
           empty_world Hdue).
Defined.

(** ** save_data_to_excel *)

Lemma add_column_In (cols : list str) (k' k : str) :
  In k (add_column cols k') <-> In k cols \/ k = k'.
Proof.
  unfold add_column. fold (mem k' cols).
  destruct (mem k' cols) eqn:E.
  - apply mem_In in E. intuition congruence.
  - rewrite in_app_iff. simpl. intuition congruence.
Qed.

Lemma add_column_NoDup (cols : list str) (k' : str) :
  NoDup cols -> NoDup (add_column cols k').
Proof.
  intros H. unfold add_column. fold (mem k' cols).
  destruct (mem k' cols) eqn:E; [exact H|].
  apply mem_not_In in E. apply NoDup_app.
  - exact H.
  - constructor; [intros []|constructor].
  - intros a Ha [<-|[]]. contradiction.
Qed.

Lemma add_columns_In (ks : list str) :
  forall cols k,
    In k (fold_left add_column ks cols) <-> In k cols \/ In k ks.
Proof.
  induction ks as [|k0 ks IH]; intros cols k; simpl.
  - tauto.
  - rewrite IH, add_column_In. intuition congruence.
Qed.

Lemma add_columns_NoDup (ks : list str) :
  forall cols, NoDup cols -> NoDup (fold_left add_column ks cols).
Proof.
  induction ks as [|k0 ks IH]; intros cols H; simpl; [exact H|].
  apply IH, add_column_NoDup, H.
Qed.

Lemma columns_fold_In (records : list dict) :
  forall cols k,
    In k (fold_left (fun cols r => fold_left add_column (keys r) cols)
                    records cols)
    <-> In k cols \/ exists rec, In rec records /\ In k (keys rec).
Proof.
  induction records as [|r records IH]; intros cols k; simpl.
  - split; [tauto | intros [H|[rec [[] _]]]; exact H].
  - rewrite IH, add_columns_In. split.
    + intros [[H|H]|[rec [H1 H2]]]; eauto.
    + intros [H|[rec [[<-|H1] H2]]]; eauto.
Qed.

Lemma columns_fold_NoDup (records : list dict) :
  forall cols,
    NoDup cols ->
    NoDup (fold_left (fun cols r => fold_left add_column (keys r) cols)
                     records cols).
Proof.
  induction records as [|r records IH]; intros cols H; simpl; [exact H|].
  apply IH, add_columns_NoDup, H.
Qed.

(** The frame of a list of records: one row per record, the columns are
    the keys that occur, each once. *)
Lemma make_DataFrame_shape (records : list dict) :
  let df := make_DataFrame records in
  List.length (values df) = List.length records
  /\ (forall k, In k (columns df)
                <-> exists rec, In rec records /\ In k (keys rec))
  /\ NoDup (columns df)
  /\ (forall j rec, nth_error records j = Some rec ->
                    nth_error (values df) j
                    = Some (map (fun c => dict_get c rec) (columns df))).
Proof.
  unfold make_DataFrame. cbn [columns values]. split; [apply length_map|].
  split.
  { intros k. unfold columns_of. rewrite columns_fold_In. simpl. tauto. }
  split.
  { unfold columns_of. apply columns_fold_NoDup. constructor. }
  intros j rec H. rewrite nth_error_map, H. reflexivity.
Qed.

(** C8, as stated, fails: when the first of two writes raises and leaves
    the previous file, the file after the first save has no data row for
    the one record of the accumulator, and the file after the second save
    differs from it. *)
Lemma failed_write_keeps_old_file :
  let w1 := fst (save_data_to_excel locked_then_good_disk one_record_world) in
  let w2 := fst (save_data_to_excel locked_then_good_disk w1) in
  all_data w1 = all_data one_record_world
  /\ all_data w2 = all_data one_record_world
  /\ List.length (all_data one_record_world) = 1
  /\ option_map (fun df => List.length (values df)) (file w1) = Some 0
  /\ option_map (fun df => List.length (values df)) (file w2) = Some 1
  /\ file w1 <> file w2.
Proof.
  vm_compute. repeat split; try reflexivity. discriminate.
Qed.

(** C8, amended. Two saves in a row whose writes both succeed, with
    nothing appended in between, leave the same file both times: the file
    is the sheet of the accumulator whatever was at the path before, with
    one data row per record and with the keys that occur in the records as
    its columns. *)
Theorem save_twice_writes_same_file
        (disk : nat -> write_outcome) (w : world) :
  disk (disk_writes w) = Written ->
  disk (S (disk_writes w)) = Written ->
  let w1 := fst (save_data_to_excel disk w) in
  let w2 := fst (save_data_to_excel disk w1) in
  let df := make_DataFrame (all_data w) in
  file w1 = Some df
  /\ file w2 = Some df
  /\ all_data w1 = all_data w
  /\ all_data w2 = all_data w
  /\ List.length (values df) = List.length (all_data w)
  /\ (forall k, In k (columns df)
                <-> exists rec, In rec (all_data w) /\ In k (keys rec))
  /\ NoDup (columns df)
  /\ (forall j rec, nth_error (all_data w) j = Some rec ->
                    nth_error (values df) j
                    = Some (map (fun c => dict_get c rec) (columns df))).
Proof.
  intros H1 H2 w1 w2 df.
  assert (E1 : w1 = {| all_data := all_data w;
                       last_save_time := last_save_time w;
                       file := Some df;
                       clock_reads := clock_reads w;
                       disk_writes := S (disk_writes w) |}).
  { subst w1. unfold save_data_to_excel. rewrite H1. reflexivity. }
  assert (E2 : file w2 = Some df /\ all_data w2 = all_data w).
  { subst w2. rewrite E1. unfold save_data_to_excel. cbn [disk_writes].
    rewrite H2. split; reflexivity. }
  destruct E2 as [E2 E3].
  split; [rewrite E1; reflexivity|].
  split; [exact E2|].
  split; [rewrite E1; reflexivity|].
  split; [exact E3|].
  apply make_DataFrame_shape.
Qed.

(** Witness of C8, amended: the state with one record, on a disk that
    takes every write. *)
Lemma save_twice_writes_same_file_witness :
  let w1 := fst (save_data_to_excel good_disk one_record_world) in
  let w2 := fst (save_data_to_excel good_disk w1) in
  let df := make_DataFrame (all_data one_record_world) in
  file w1 = Some df
  /\ file w2 = Some df
  /\ all_data w1 = all_data one_record_world
  /\ all_data w2 = all_data one_record_world
  /\ List.length (values df) = List.length (all_data one_record_world)
  /\ (forall k, In k (columns df)
                <-> exists rec, In rec (all_data one_record_world)
                                /\ In k (keys rec))
  /\ NoDup (columns df)
  /\ (forall j rec, nth_error (all_data one_record_world) j = Some rec ->
                    nth_error (values df) j
                    = Some (map (fun c => dict_get c rec) (columns df))).
Proof.
  apply (save_twice_writes_same_file good_disk one_record_world).
  - reflexivity.
  - reflexivity.
Defined.

(** ** The tasks of a model page *)

Section Pool.

Variable web : str -> nat -> attempt_result.
Variable clock : nat -> Q.
Variable disk : nat -> write_outcome.

Local Abbreviation run := (run_generation_tasks web clock disk).

Lemma run_generation_tasks_app (ts1 ts2 : list task) :
  forall w,
    run (ts1 ++ ts2) w =
    (fst (fst (run ts1 w)) ++ fst (fst (run ts2 (snd (fst (run ts1 w))))),
     snd (fst (run ts2 (snd (fst (run ts1 w))))),
     snd (run ts1 w) ++ snd (run ts2 (snd (fst (run ts1 w))))).
Proof.
  induction ts1 as [|[u d] ts1 IH]; intros w; simpl.
  - destruct (run_generation_tasks web clock disk ts2 w) as [[os2 w2] tr2].
    reflexivity.
  - destruct (parse_car_generation_page web clock disk u d w)
      as [[o w1] tr1].
    rewrite IH.
    destruct (run_generation_tasks web clock disk ts1 w1)
      as [[os1 w1'] tr1'].
    simpl. rewrite app_assoc. reflexivity.
Qed.

Lemma run_generation_tasks_length (ts : list task) :
  forall w, List.length (fst (fst (run ts w))) = List.length ts.
Proof.
  induction ts as [|[u d] ts IH]; intros w; simpl; [reflexivity|].
  destruct (parse_car_generation_page web clock disk u d w) as [[o w1] tr1].
  specialize (IH w1).
  destruct (run_generation_tasks web clock disk ts w1) as [[os w2] tr2].
  simpl in *. now rewrite IH.
Qed.

Lemma run_generation_tasks_cons (u : str) (d : dict) (ts : list task)
      (w : world) :
  run ((u, d) :: ts) w =
  (fst (fst (parse_car_generation_page web clock disk u d w))
     :: fst (fst (run ts (snd (fst (parse_car_generation_page
                                      web clock disk u d w))))),
   snd (fst (run ts (snd (fst (parse_car_generation_page
                                 web clock disk u d w))))),
   snd (parse_car_generation_page web clock disk u d w)
   ++ snd (run ts (snd (fst (parse_car_generation_page
                               web clock disk u d w))))).
Proof.
  simpl.
  destruct (parse_car_generation_page web clock disk u d w) as [[o w1] tr1].
  simpl.
  destruct (run_generation_tasks web clock disk ts w1) as [[os w2] tr2].
  reflexivity.
Qed.

(** A task that raises without touching the state is, for the state, as
    if it had not been submitted. *)
Lemma run_generation_tasks_raising
      (url : str) (data : dict) (e : exn) (before after : list task) :
  (forall w0, exists tr0,
        parse_car_generation_page web clock disk url data w0
        = (Raises e, w0, tr0)) ->
  forall w,
    snd (fst (run (before ++ (url, data) :: after) w))
    = snd (fst (run (before ++ after) w))
    /\ nth_error (fst (fst (run (before ++ (url, data) :: after) w)))
                 (List.length before)
       = Some (Raises e).
Proof.
  intros Hraise w.
  rewrite (run_generation_tasks_app before ((url, data) :: after)).
  rewrite (run_generation_tasks_app before after).
  rewrite run_generation_tasks_cons.
  destruct (Hraise (snd (fst (run_generation_tasks web clock disk before w))))
    as [tr0 Htr0].
  rewrite Htr0.
  pose proof (run_generation_tasks_length before w) as Hlen.
  split; [reflexivity|].
  unfold fst at 1 2. unfold fst at 3 4 5.
  rewrite nth_error_app2; rewrite Hlen; [|lia].
  rewrite Nat.sub_diag. reflexivity.
Qed.

End Pool.

(** The line of line 160 is written by the model page alone: not by the
    fetcher, not by a generation-page task, not by a save. *)
Lemma fetch_loop_no_failure_line (get : nat -> attempt_result) (url : str)
      (remaining : nat) :
  forall attempt,
    existsb logs_generation_failure
            (fst (fetch_loop get url attempt remaining)) = false.
Proof.
  induction remaining as [|n IH]; intros attempt; simpl; [reflexivity|].
  destruct (get attempt) as [r|].
  - destruct (status_code r =? 200)%Z; [reflexivity|].
    destruct (retryable (status_code r)); [|reflexivity].
    specialize (IH (S attempt)).
    destruct (fetch_loop get url (S attempt) n) as [tr res].
    exact IH.
  - specialize (IH (S attempt)).
    destruct (fetch_loop get url (S attempt) n) as [tr res].
    exact IH.
Qed.

Lemma fetch_url_no_failure_line (get : nat -> attempt_result) (url : str) :
  existsb logs_generation_failure (fst (fetch_url get url)) = false.
Proof. unfold fetch_url. apply fetch_loop_no_failure_line. Qed.

Lemma periodic_save_no_failure_line (clock : nat -> Q)
      (disk : nat -> write_outcome) (w : world) :
  existsb logs_generation_failure (snd (periodic_save clock disk w)) = false.
Proof.
  unfold periodic_save, time_time, save_data_to_excel.
  cbn [last_save_time disk_writes].
  destruct (Qle_bool _ _); [|reflexivity].
  destruct (disk (disk_writes w)); reflexivity.
Qed.

Lemma generation_page_no_failure_line
      (web : str -> nat -> attempt_result) (clock : nat -> Q)
      (disk : nat -> write_outcome) (url : str) (data : dict) (w : world) :
  existsb logs_generation_failure
          (snd (parse_car_generation_page web clock disk url data w))
  = false.
Proof.
  unfold parse_car_generation_page.
  pose proof (fetch_url_no_failure_line (web url) url) as Hf.
  destruct (fetch_url (web url) url) as [tr [r|]]; cbn [fst] in Hf;
    [|cbn [snd existsb logs_generation_failure]; exact Hf].
  destruct (negb (response_bool r));
    [cbn [snd existsb logs_generation_failure]; exact Hf|].
  destruct (find_trim_table (text r)) as [[|first rest]|].
  - cbn [snd]. rewrite !existsb_app.
    cbn [existsb logs_generation_failure]. now rewrite Hf.
  - destruct (process_rows (map strip (find_all_th first)) rest
                           (set_placeholders data, w)) as [d' w'].
    pose proof (periodic_save_no_failure_line clock disk w') as Hs.
    destruct (periodic_save clock disk w') as [w'' saved].
    cbn [snd] in Hs |- *.
    rewrite !existsb_app.
    cbn [existsb logs_generation_failure]. now rewrite Hf, Hs.
  - cbn [snd]. rewrite !existsb_app.
    cbn [existsb logs_generation_failure]. now rewrite Hf.
Qed.

Lemma run_generation_tasks_no_failure_line
      (web : str -> nat -> attempt_result) (clock : nat -> Q)
      (disk : nat -> write_outcome) (tasks : list task) :
  forall w,
    existsb logs_generation_failure
            (snd (run_generation_tasks web clock disk tasks w)) = false.
Proof.
  induction tasks as [|[u d] tasks IH]; intros w; [reflexivity|].
  rewrite run_generation_tasks_cons. cbn [snd].
  rewrite existsb_app, generation_page_no_failure_line. apply IH.
Qed.

Lemma no_failure_line_In (tr : list event) :
  existsb logs_generation_failure tr = false ->
  forall l e, ~ In (Log l (MsgGenerationFailed e)) tr.
Proof.
  intros H l e Hin.
  assert (Ht : existsb logs_generation_failure tr = true).
  { apply existsb_exists. eexists. split; [exact Hin | reflexivity]. }
  congruence.
Qed.

(** C10, as stated, fails when the submission loop of the model page raises
    after the task was submitted: in the sample model page with a nameless
    second block, the task of the empty table is submitted and raises
    [IndexError], the three tasks of the first block run, and the stage
    ends in [AttributeError] with no error line in its log: lines 156-160
    are never reached. *)
Lemma empty_table_error_is_lost_when_submission_raises :
  let page :=
    parse_car_model_page web_of_nameless_block idle_clock good_disk
                         sample_urljoin model_url sample_model_data
                         empty_world in
  submit_countries sample_urljoin model_url sample_model_data
                   (find_country_divs model_page_with_nameless_block)
  = (sample_tasks, Some AttributeError)
  /\ nth_error sample_tasks 1 = Some empty_table_task
  /\ fst (fst (parse_car_generation_page
                 web_of_nameless_block idle_clock good_disk
                 (fst empty_table_task) (snd empty_table_task) empty_world))
     = Raises IndexError
  /\ fst (fst page) = Raises AttributeError
  /\ List.length (all_data (snd (fst page))) = 3
  /\ filter (fun ev => match ev with Log ERROR _ => true | _ => false end)
            (snd page)
     = []
  /\ ~ In (Log ERROR (MsgGenerationFailed IndexError)) (snd page).
Proof.
  vm_compute. repeat split; try reflexivity.
  intros H. repeat (destruct H as [H|H]; [discriminate H|]). exact H.
Qed.

(** C10, amended. A generation page that was fetched and whose table has no
    row at all makes [parse_car_generation_page] raise [IndexError] at the
    read of the header row, with the state, and so the accumulator, exactly
    as it was. In the model page that submitted it, the other submitted
    tasks run and leave the state that they would have left without it, and
    every task has a result. When the submission loop of the model page ran
    to its end, the exception is logged as an error and the stage returns;
    when the loop itself raised, the stage ends in that exception and the
    one of the task is never logged. *)
Theorem empty_table_raises_and_siblings_run
        (web : str -> nat -> attempt_result) (clock : nat -> Q)
        (disk : nat -> write_outcome) (urljoin : str -> str -> option str)
        (url : str) (data : dict) (tr : list event) (r : response)
        (car_model_url : str) (model : dict) (mtr : list event)
        (mr : response) (before after : list task) (stopped : option exn)
        (w : world) :
  fetch_url (web url) url = (tr, Some r) ->
  find_trim_table (text r) = Some [] ->
  fetch_url (web car_model_url) car_model_url = (mtr, Some mr) ->
  submit_countries urljoin car_model_url model (find_country_divs (text mr))
  = (before ++ (url, data) :: after, stopped) ->
  (forall w0, exists tr0,
        parse_car_generation_page web clock disk url data w0
        = (Raises IndexError, w0, tr0))
  /\ exists o w' tr' results,
      parse_car_model_page web clock disk urljoin car_model_url model w
      = (o, w', tr')
      /\ w' = snd (fst (run_generation_tasks web clock disk
                                             (before ++ after) w))
      /\ results = fst (fst (run_generation_tasks
                               web clock disk
                               (before ++ (url, data) :: after) w))
      /\ List.length results = List.length before + 1 + List.length after
      /\ nth_error results (List.length before) = Some (Raises IndexError)
      /\ match stopped with
         | None =>
           o = Returns
           /\ In (Log ERROR (MsgGenerationFailed IndexError)) tr'
         | Some e =>
           o = Raises e
           /\ forall l e', ~ In (Log l (MsgGenerationFailed e')) tr'
         end.
Proof.
  intros Hfetch Htable Hmodel Hsubmit.
  assert (Hraise : forall w0, exists tr0,
               parse_car_generation_page web clock disk url data w0
               = (Raises IndexError, w0, tr0)).
  { intros w0.
    rewrite (parse_car_generation_page_fetched _ clock disk _ data w0 _ _
                                               Hfetch).
    rewrite Htable. eexists. reflexivity. }
  split; [exact Hraise|].
  destruct (run_generation_tasks_raising web clock disk url data IndexError
                                         before after Hraise w)
    as [Hw Hnth].
  pose proof (run_generation_tasks_length
                web clock disk (before ++ (url, data) :: after) w) as Hlen.
  pose proof (run_generation_tasks_no_failure_line
                web clock disk (before ++ (url, data) :: after) w) as Hquiet.
  pose proof (fetch_url_no_failure_line (web car_model_url) car_model_url)
    as Hmquiet.
  rewrite Hmodel in Hmquiet. cbn [fst] in Hmquiet.
  unfold parse_car_model_page.
  rewrite Hmodel, (fetch_url_Some_bool _ _ _ _ Hmodel), Hsubmit.
  simpl negb. cbv iota.
  destruct (run_generation_tasks web clock disk
                                 (before ++ (url, data) :: after) w)
    as [[results w'] ran].
  cbn [fst snd] in Hw, Hnth, Hlen, Hquiet.
  destruct stopped as [e|].
  - exists (Raises e), w'. eexists. exists results.
    split; [reflexivity|].
    split; [exact Hw|]. split; [reflexivity|].
    split; [rewrite Hlen, length_app; simpl; lia|].
    split; [exact Hnth|].
    split; [reflexivity|].
    apply no_failure_line_In.
    rewrite !existsb_app.
    cbn [existsb logs_generation_failure]. now rewrite Hmquiet, Hquiet.
  - exists Returns, w'. eexists. exists results.
    split; [reflexivity|].
    split; [exact Hw|]. split; [reflexivity|].
    split; [rewrite Hlen, length_app; simpl; lia|].
    split; [exact Hnth|].
    split; [reflexivity|].
    apply in_or_app. right. apply in_or_app. right.
    unfold collect_generation_futures. apply in_flat_map.
    exists (Raises IndexError). split.
    + eapply nth_error_In. exact Hnth.
    + simpl. tauto.
Qed.

(** Witness of C10: the sample model page, whose second generation page
    has a table without rows and whose submission loop runs to its end. *)
Lemma empty_table_raises_and_siblings_run_witness :
  (forall w0, exists tr0,
        parse_car_generation_page web_of_model idle_clock good_disk
                                  (fst empty_table_task)
                                  (snd empty_table_task) w0
        = (Raises IndexError, w0, tr0))
  /\ exists o w' tr' results,
      parse_car_model_page web_of_model idle_clock good_disk sample_urljoin
                           model_url sample_model_data empty_world
      = (o, w', tr')
      /\ w' = snd (fst (run_generation_tasks
                          web_of_model idle_clock good_disk
                          (firstn 1 sample_tasks ++ skipn 2 sample_tasks)
                          empty_world))
      /\ results = fst (fst (run_generation_tasks
                               web_of_model idle_clock good_disk
                               (firstn 1 sample_tasks
                                ++ (fst empty_table_task,
                                    snd empty_table_task)
                                :: skipn 2 sample_tasks)
                               empty_world))
      /\ List.length results
         = List.length (firstn 1 sample_tasks) + 1
           + List.length (skipn 2 sample_tasks)
      /\ nth_error results (List.length (firstn 1 sample_tasks))
         = Some (Raises IndexError)
      /\ o = Returns
      /\ In (Log ERROR (MsgGenerationFailed IndexError)) tr'.
Proof.
  eapply (empty_table_raises_and_siblings_run
            web_of_model idle_clock good_disk sample_urljoin
            (fst empty_table_task) (snd empty_table_task)
            _ (answer 200 page_with_empty_table)
            model_url sample_model_data _ (answer 200 model_page)
            (firstn 1 sample_tasks) (skipn 2 sample_tasks) None
            empty_world).
  - vm_compute. reflexivity.
  - reflexivity.
  - vm_compute. reflexivity.
  - vm_compute. reflexivity.
Defined.

Example sample_model_page_run :
  let '(o, w', tr') :=
    parse_car_model_page web_of_model idle_clock good_disk sample_urljoin
                         model_url sample_model_data empty_world in
  o = Returns
  /\ List.length (all_data w') = 3
  /\ map (dict_get K_TRIM) (all_data w')
     = [Some (py "2.0 AT Standard"); Some (py "2.5 AT Prestige");
        Some PLACEHOLDER]
  /\ filter (fun ev => match ev with Log ERROR _ => true | _ => false end) tr'
     = [Log ERROR (MsgGenerationFailed IndexError)].
Proof. vm_compute. repeat split; reflexivity. Qed.

(* ===================================================================== *)
(** * Further properties of the fetcher                                   *)
(* ===================================================================== *)

Section FetchBounds.

Variable get : nat -> attempt_result.
Variable url : str.

(** Whatever the server does, an iteration of the loop issues one GET with
    the fixed timeout and at most one sleep of the fixed delay. *)
Lemma fetch_loop_bounds (remaining : nat) :
  forall attempt tr res,
    fetch_loop get url attempt remaining = (tr, res) ->
    List.length (gets tr) <= remaining
    /\ List.length (sleeps tr) <= List.length (gets tr)
    /\ Forall (fun e => e = Get url REQUEST_TIMEOUT) (gets tr)
    /\ Forall (fun e => e = Sleep RETRY_DELAY) (sleeps tr).
Proof.
  induction remaining as [|remaining IH]; intros attempt tr res H.
  - injection H as <- _. simpl. repeat split; constructor.
  - cbn [fetch_loop] in H. destruct (get attempt) as [resp|].
    + destruct (status_code resp =? 200)%Z.
      * injection H as <- _. simpl.
        repeat split; try lia; repeat constructor.
      * destruct (retryable (status_code resp)).
        -- destruct (fetch_loop get url (S attempt) remaining)
             as [tr' res'] eqn:E.
           injection H as <- _.
           destruct (IH _ _ _ E) as [H1 [H2 [H3 H4]]].
           simpl. repeat split; try lia; constructor; auto.
        -- injection H as <- _. simpl.
           repeat split; try lia; repeat constructor.
    + destruct (fetch_loop get url (S attempt) remaining)
        as [tr' res'] eqn:E.
      injection H as <- _.
      destruct (IH _ _ _ E) as [H1 [H2 [H3 H4]]].
      simpl. repeat split; try lia; constructor; auto.
Qed.

(** A response comes back only from an attempt that answered 200 after
    nothing but retried attempts. *)
Lemma fetch_loop_Some_inv (remaining : nat) :
  forall attempt tr r,
    fetch_loop get url attempt remaining = (tr, Some r) ->
    exists n,
      n < remaining
      /\ get (attempt + n) = Responds r
      /\ status_code r = 200%Z
      /\ (forall k, k < n -> retried (get (attempt + k)))
      /\ List.length (gets tr) = S n
      /\ List.length (sleeps tr) = n.
Proof.
  induction remaining as [|remaining IH]; intros attempt tr r H.
  - discriminate H.
  - cbn [fetch_loop] in H. destruct (get attempt) as [resp|] eqn:Hg.
    + destruct (Z.eqb_spec (status_code resp) 200) as [E200|E200].
      * injection H as <- <-. exists 0.
        rewrite Nat.add_0_r. repeat split; try lia; assumption.
      * destruct (retryable (status_code resp)) eqn:Er; [|discriminate H].
        destruct (fetch_loop get url (S attempt) remaining)
          as [tr' res'] eqn:E.
        injection H as <- ->.
        destruct (IH _ _ _ E) as [n [Hn [Hr [Hs [Hpre [Hgets Hsl]]]]]].
        exists (S n).
        replace (attempt + S n) with (S attempt + n) by lia.
        repeat split; try lia; try assumption.
        -- intros k Hk. destruct k as [|k].
           ++ rewrite Nat.add_0_r, Hg. right. exists resp.
              split; [reflexivity|]. now apply retryable_In.
           ++ replace (attempt + S k) with (S attempt + k) by lia.
              apply Hpre. lia.
        -- simpl. now rewrite Hgets.
        -- simpl. now rewrite Hsl.
    + destruct (fetch_loop get url (S attempt) remaining)
        as [tr' res'] eqn:E.
      injection H as <- ->.
      destruct (IH _ _ _ E) as [n [Hn [Hr [Hs [Hpre [Hgets Hsl]]]]]].
      exists (S n).
      replace (attempt + S n) with (S attempt + n) by lia.
      repeat split; try lia; try assumption.
      * intros k Hk. destruct k as [|k].
        -- rewrite Nat.add_0_r, Hg. now left.
        -- replace (attempt + S k) with (S attempt + k) by lia.
           apply Hpre. lia.
      * simpl. now rewrite Hgets.
      * simpl. now rewrite Hsl.
Qed.

(** The loop gives up for one of two reasons: every attempt was retried,
    or an attempt answered with a status that is neither 200 nor
    retryable. *)
Lemma fetch_loop_None_inv (remaining : nat) :
  forall attempt tr,
    fetch_loop get url attempt remaining = (tr, None) ->
    ((forall k, k < remaining -> retried (get (attempt + k)))
     /\ List.length (gets tr) = remaining
     /\ List.length (sleeps tr) = remaining)
    \/ (exists n resp,
           n < remaining
           /\ get (attempt + n) = Responds resp
           /\ status_code resp <> 200%Z
           /\ ~ In (status_code resp) [429; 503; 443]%Z
           /\ (forall k, k < n -> retried (get (attempt + k)))
           /\ List.length (gets tr) = S n
           /\ List.length (sleeps tr) = n).
Proof.
  induction remaining as [|remaining IH]; intros attempt tr H.
  - injection H as <-. left. repeat split; try reflexivity. intros k Hk. lia.
  - cbn [fetch_loop] in H. destruct (get attempt) as [resp|] eqn:Hg.
    + destruct (Z.eqb_spec (status_code resp) 200) as [E200|E200];
        [discriminate H|].
      destruct (retryable (status_code resp)) eqn:Er.
      * destruct (fetch_loop get url (S attempt) remaining)
          as [tr' res'] eqn:E.
        injection H as <- ->.
        assert (H0 : retried (get attempt)).
        { rewrite Hg. right. exists resp. split; [reflexivity|].
          now apply retryable_In. }
        destruct (IH _ _ E)
          as [[Hall [Hgets Hsl]]
             |[n [resp' [Hn [Hr [Hs [Hnr [Hpre [Hgets Hsl]]]]]]]]].
        -- left. repeat split.
           ++ intros k Hk. destruct k as [|k].
              ** now rewrite Nat.add_0_r.
              ** replace (attempt + S k) with (S attempt + k) by lia.
                 apply Hall. lia.
           ++ simpl. now rewrite Hgets.
           ++ simpl. now rewrite Hsl.
        -- right. exists (S n), resp'.
           replace (attempt + S n) with (S attempt + n) by lia.
           repeat split; try lia; try assumption.
           ++ intros k Hk. destruct k as [|k].
              ** now rewrite Nat.add_0_r.
              ** replace (attempt + S k) with (S attempt + k) by lia.
                 apply Hpre. lia.
           ++ simpl. now rewrite Hgets.
           ++ simpl. now rewrite Hsl.
      * injection H as <-. right. exists 0, resp.
        rewrite Nat.add_0_r. repeat split; try lia; try assumption.
        intros Hin. apply retryable_In in Hin. congruence.
    + destruct (fetch_loop get url (S attempt) remaining)
        as [tr' res'] eqn:E.
      injection H as <- ->.
      assert (H0 : retried (get attempt)) by (rewrite Hg; now left).
      destruct (IH _ _ E)
        as [[Hall [Hgets Hsl]]
           |[n [resp' [Hn [Hr [Hs [Hnr [Hpre [Hgets Hsl]]]]]]]]].
      * left. repeat split.
        -- intros k Hk. destruct k as [|k].
           ++ now rewrite Nat.add_0_r.
           ++ replace (attempt + S k) with (S attempt + k) by lia.
              apply Hall. lia.
        -- simpl. now rewrite Hgets.
        -- simpl. now rewrite Hsl.
      * right. exists (S n), resp'.
        replace (attempt + S n) with (S attempt + n) by lia.
        repeat split; try lia; try assumption.
        -- intros k Hk. destruct k as [|k].
           ++ now rewrite Nat.add_0_r.
           ++ replace (attempt + S k) with (S attempt + k) by lia.
              apply Hpre. lia.
        -- simpl. now rewrite Hgets.
        -- simpl. now rewrite Hsl.
Qed.

End FetchBounds.

Lemma fetch_loop_aborts_after (get : nat -> attempt_result) (url : str)
      (n : nat) :
  forall attempt remaining resp,
    n < remaining ->
    (forall k, k < n -> retried (get (attempt + k))) ->
    get (attempt + n) = Responds resp ->
    status_code resp <> 200%Z ->
    ~ In (status_code resp) [429; 503; 443]%Z ->
    exists tr,
      fetch_loop get url attempt remaining = (tr, None)
      /\ gets tr = repeat (Get url REQUEST_TIMEOUT) (S n)
      /\ sleeps tr = repeat (Sleep RETRY_DELAY) n.
Proof.
  induction n as [|n IH]; intros attempt remaining resp Hlt Hpre Hn H200 Hnr.
  - destruct remaining as [|remaining]; [lia|].
    rewrite Nat.add_0_r in Hn. cbn [fetch_loop]. rewrite Hn.
    apply Z.eqb_neq in H200. rewrite H200.
    destruct (retryable (status_code resp)) eqn:E.
    + apply retryable_In in E. contradiction.
    + eexists. split; [reflexivity|]. split; reflexivity.
  - destruct remaining as [|remaining]; [lia|].
    assert (H0 : retried (get attempt)).
    { rewrite <- (Nat.add_0_r attempt). apply Hpre. lia. }
    destruct (fetch_loop_retried get url attempt remaining H0)
      as [pre [Hstep [Hg Hz]]].
    destruct (IH (S attempt) remaining resp) as [tr [Htr [Hg' Hz']]].
    + lia.
    + intros k Hk. replace (S attempt + k) with (attempt + S k) by lia.
      apply Hpre. lia.
    + replace (S attempt + n) with (attempt + S n) by lia. exact Hn.
    + exact H200.
    + exact Hnr.
    + rewrite Hstep, Htr. simpl fst. simpl snd.
      exists (pre ++ tr). split; [reflexivity|].
      rewrite gets_app, sleeps_app, Hg, Hz, Hg', Hz'.
      split; reflexivity.
Qed.

Lemma fetch_url_unfold (get : nat -> attempt_result) (url : str) :
  fetch_url get url = fetch_loop get url 0 MAX_RETRIES.
Proof. unfold fetch_url. reflexivity. Qed.

(** X1. Whatever the server answers, one call of [fetch_url] issues at
    most 50 GET requests, each for the given URL with the 10-second
    timeout, and never sleeps more often than it has issued requests,
    each time for 5 seconds. *)
Theorem fetch_url_never_exceeds_cap
        (get : nat -> attempt_result) (url : str) :
  let tr := fst (fetch_url get url) in
  List.length (gets tr) <= 50
  /\ List.length (sleeps tr) <= List.length (gets tr)
  /\ Forall (fun e => e = Get url 10%Z) (gets tr)
  /\ Forall (fun e => e = Sleep 5%Z) (sleeps tr).
Proof.
  intros tr. subst tr. unfold fetch_url.
  destruct (fetch_loop get url 0 MAX_RETRIES) as [tr res] eqn:E.
  exact (fetch_loop_bounds get url MAX_RETRIES 0 tr res E).
Qed.

(** X2. When [fetch_url] returns a response, it is the answer of some
    attempt [N <= 50] with status 200, every earlier attempt was retried
    (network error or status 429, 503, 443), and the call made exactly [N]
    GETs and [N - 1] sleeps. *)
Theorem fetch_url_response_is_first_200
        (get : nat -> attempt_result) (url : str)
        (tr : list event) (r : response) :
  fetch_url get url = (tr, Some r) ->
  exists N,
    1 <= N <= MAX_RETRIES
    /\ get (N - 1) = Responds r
    /\ status_code r = 200%Z
    /\ (forall k, k < N - 1 -> retried (get k))
    /\ List.length (gets tr) = N
    /\ List.length (sleeps tr) = N - 1.
Proof.
  intros H. rewrite fetch_url_unfold in H.
  destruct (fetch_loop_Some_inv get url MAX_RETRIES 0 tr r H)
    as [n [Hn [Hr [Hs [Hpre [Hg Hz]]]]]].
  exists (S n). replace (S n - 1) with n by lia.
  repeat split; try lia; assumption.
Qed.

(** Witness of X2. *)
Lemma fetch_url_response_is_first_200_witness :
  exists N,
    1 <= N <= MAX_RETRIES
    /\ busy_twice (N - 1) = Responds (answer 200 page_without_table)
    /\ status_code (answer 200 page_without_table) = 200%Z
    /\ (forall k, k < N - 1 -> retried (busy_twice k))
    /\ List.length (gets (fst (fetch_url busy_twice sample_url))) = N
    /\ List.length (sleeps (fst (fetch_url busy_twice sample_url))) = N - 1.
Proof.
  apply (fetch_url_response_is_first_200 busy_twice sample_url).
  vm_compute. reflexivity.
Defined.

(** X3. When [fetch_url] returns [None], either all 50 attempts were
    retried (50 GETs, 50 sleeps), or some attempt [N <= 50] answered with
    a status that is neither 200 nor 429, 503 or 443 after [N - 1] retried
    attempts ([N] GETs, [N - 1] sleeps). *)
Theorem fetch_url_failure_reasons
        (get : nat -> attempt_result) (url : str) (tr : list event) :
  fetch_url get url = (tr, None) ->
  ((forall k, k < MAX_RETRIES -> retried (get k))
   /\ List.length (gets tr) = 50
   /\ List.length (sleeps tr) = 50)
  \/ (exists N resp,
         1 <= N <= MAX_RETRIES
         /\ get (N - 1) = Responds resp
         /\ status_code resp <> 200%Z
         /\ ~ In (status_code resp) [429; 503; 443]%Z
         /\ (forall k, k < N - 1 -> retried (get k))
         /\ List.length (gets tr) = N
         /\ List.length (sleeps tr) = N - 1).
Proof.
  intros H. rewrite fetch_url_unfold in H.
  destruct (fetch_loop_None_inv get url MAX_RETRIES 0 tr H)
    as [[Hall [Hg Hz]]|[n [resp [Hn [Hr [Hs [Hnr [Hpre [Hg Hz]]]]]]]]].
  - left. repeat split; assumption.
  - right. exists (S n), resp. replace (S n - 1) with n by lia.
    repeat split; try lia; assumption.
Qed.

(** Witness of X3. *)
Lemma fetch_url_failure_reasons_witness :
  ((forall k, k < MAX_RETRIES -> retried (busy_then_gone k))
   /\ List.length (gets (fst (fetch_url busy_then_gone sample_url))) = 50
   /\ List.length (sleeps (fst (fetch_url busy_then_gone sample_url))) = 50)
  \/ (exists N resp,
         1 <= N <= MAX_RETRIES
         /\ busy_then_gone (N - 1) = Responds resp
         /\ status_code resp <> 200%Z
         /\ ~ In (status_code resp) [429; 503; 443]%Z
         /\ (forall k, k < N - 1 -> retried (busy_then_gone k))
         /\ List.length (gets (fst (fetch_url busy_then_gone sample_url)))
            = N
         /\ List.length (sleeps (fst (fetch_url busy_then_gone sample_url)))
            = N - 1).
Proof.
  apply (fetch_url_failure_reasons busy_then_gone sample_url).
  vm_compute. reflexivity.
Defined.

(** X4. Network errors are retried like the statuses 429, 503 and 443:
    when the first [N - 1] attempts each raise or answer with one of those
    statuses and attempt [N <= 50] answers 200, [fetch_url] returns that
    response after exactly [N] GETs and [N - 1] sleeps. *)
Theorem fetch_url_recovers_from_network_errors
        (get : nat -> attempt_result) (url : str) (N : nat) (r : response) :
  1 <= N <= MAX_RETRIES ->
  (forall k, k < N - 1 -> retried (get k)) ->
  get (N - 1) = Responds r ->
  status_code r = 200%Z ->
  exists tr,
    fetch_url get url = (tr, Some r)
    /\ gets tr = repeat (Get url REQUEST_TIMEOUT) N
    /\ sleeps tr = repeat (Sleep RETRY_DELAY) (N - 1).
Proof.
  intros [H1 HN] Hpre Hn Hs.
  destruct (fetch_loop_succeeds_after get url (N - 1) 0 MAX_RETRIES r)
    as [tr [Htr [Hg [Hz _]]]]; try assumption; try lia.
  exists tr. replace (S (N - 1)) with N in Hg by lia.
  unfold fetch_url. repeat split; assumption.
Qed.

(** Witness of X4. *)
Lemma fetch_url_recovers_from_network_errors_witness :
  exists tr,
    fetch_url flaky_then_ok sample_url
    = (tr, Some (answer 200 page_without_table))
    /\ gets tr = repeat (Get sample_url REQUEST_TIMEOUT) 3
    /\ sleeps tr = repeat (Sleep RETRY_DELAY) 2.
Proof.
  apply (fetch_url_recovers_from_network_errors flaky_then_ok sample_url 3).
  - unfold MAX_RETRIES. lia.
  - intros k Hk. destruct k as [|[|k]].
    + left. reflexivity.
    + right. eexists. split; [reflexivity|]. simpl. tauto.
    + simpl in Hk. lia.
  - reflexivity.
  - reflexivity.
Defined.

(** X5. A status that is neither 200 nor retryable ends the call at
    whatever attempt it arrives: after [N - 1] retried attempts and such
    an answer at attempt [N <= 50], [fetch_url] returns [None] after
    exactly [N] GETs and [N - 1] sleeps, with no sleep after the last
    answer. *)
Theorem fetch_url_aborts_at_first_other_status
        (get : nat -> attempt_result) (url : str) (N : nat)
        (resp : response) :
  1 <= N <= MAX_RETRIES ->
  (forall k, k < N - 1 -> retried (get k)) ->
  get (N - 1) = Responds resp ->
  status_code resp <> 200%Z ->
  ~ In (status_code resp) [429; 503; 443]%Z ->
  exists tr,
    fetch_url get url = (tr, None)
    /\ gets tr = repeat (Get url REQUEST_TIMEOUT) N
    /\ sleeps tr = repeat (Sleep RETRY_DELAY) (N - 1).
Proof.
  intros [H1 HN] Hpre Hn H200 Hnr.
  destruct (fetch_loop_aborts_after get url (N - 1) 0 MAX_RETRIES resp)
    as [tr [Htr [Hg Hz]]]; try assumption; try lia.
  exists tr. replace (S (N - 1)) with N in Hg by lia.
  unfold fetch_url. repeat split; assumption.
Qed.

(** Witness of X5. *)
Lemma fetch_url_aborts_at_first_other_status_witness :
  exists tr,
    fetch_url busy_then_gone sample_url = (tr, None)
    /\ gets tr = repeat (Get sample_url REQUEST_TIMEOUT) 3
    /\ sleeps tr = repeat (Sleep RETRY_DELAY) 2.
Proof.
  apply (fetch_url_aborts_at_first_other_status
           busy_then_gone sample_url 3 (answer 404 page_without_table)).
  - unfold MAX_RETRIES. lia.
  - intros k Hk. destruct k as [|[|k]].
    + right. eexists. split; [reflexivity|]. simpl. tauto.
    + left. reflexivity.
    + simpl in Hk. lia.
  - reflexivity.
  - simpl. discriminate.
  - simpl. intros [H|[H|[H|[]]]]; discriminate H.
Defined.

(* ===================================================================== *)
(** * Further properties of the trim-table parser                         *)
(* ===================================================================== *)

(** Every record that the loop appends is a data row written over a
    dictionary reached by the loop, for any property [P] of dictionaries
    that the two kinds of rows preserve. *)
Lemma emitted_In_gen (headers : list str) (P : dict -> Prop) :
  (forall d columns,
      P d -> P (reset_fields (write_cells headers columns d))) ->
  (forall d label, P d -> P (dict_set K_SECTION label d)) ->
  forall rows d rec,
    P d ->
    In rec (emitted headers rows d) ->
    exists r d',
      In r rows /\ find_th_colspan r = None /\ P d'
      /\ rec = write_cells headers (find_all_td r) d'.
Proof.
  intros Hdata Hsection.
  induction rows as [|r rows IH]; intros d rec Hd Hin; simpl in Hin.
  - contradiction.
  - destruct (find_th_colspan r) as [th|] eqn:E.
    + destruct (IH _ _ (Hsection d (strip th) Hd) Hin)
        as [r' [d' [H1 H2]]].
      exists r', d'. split; [now right | exact H2].
    + destruct Hin as [<-|Hin].
      * exists r, d. split; [now left|]. tauto.
      * destruct (IH _ _ (Hdata d (find_all_td r) Hd) Hin)
          as [r' [d' [H1 H2]]].
        exists r', d'. split; [now right | exact H2].
Qed.

Lemma emitted_count (headers : list str) (rows : list row) :
  forall d,
    List.length (emitted headers rows d)
    = List.length (filter is_data_row rows).
Proof.
  induction rows as [|r rows IH]; intros d; simpl; [reflexivity|].
  unfold is_data_row at 1. destruct (find_th_colspan r); simpl.
  - apply IH.
  - now rewrite IH.
Qed.

Lemma keys_reset_written_mono (headers columns : list str) (d : dict)
      (k : str) :
  In k (keys d) ->
  In k (keys (reset_fields (write_cells headers columns d))).
Proof.
  intros H. unfold reset_fields. apply keys_set_all. right.
  now apply write_cells_keys_mono.
Qed.

(** What a generation-page task leaves in the accumulator, on every
    path. *)
Lemma parse_car_generation_page_all_data
      (web : str -> nat -> attempt_result) (clock : nat -> Q)
      (disk : nat -> write_outcome) (url : str) (data : dict) (w : world) :
  all_data (snd (fst (parse_car_generation_page web clock disk url data w)))
  = all_data w
    ++ match snd (fetch_url (web url) url) with
       | None => []
       | Some r =>
         match find_trim_table (text r) with
         | None => [set_placeholders data]
         | Some [] => []
         | Some (first :: rows) =>
           emitted (map strip (find_all_th first)) rows
                   (set_placeholders data)
         end
       end.
Proof.
  destruct (fetch_url (web url) url) as [tr [r|]] eqn:Hf.
  - rewrite (parse_car_generation_page_fetched _ clock disk _ data w _ _ Hf).
    change (snd (tr, Some r)) with (Some r). cbv iota.
    destruct (find_trim_table (text r)) as [[|first rows]|]; cbv zeta.
    + simpl. now rewrite app_nil_r.
    + destruct (process_rows_emitted (map strip (find_all_th first)) rows
                                     (set_placeholders data) w)
        as [Hd _].
      destruct (process_rows (map strip (find_all_th first)) rows
                             (set_placeholders data, w)) as [d1 w1].
      simpl snd in Hd.
      pose proof (periodic_save_all_data clock disk w1) as Hs.
      destruct (periodic_save clock disk w1) as [w2 saved].
      simpl in Hs |- *. congruence.
    + reflexivity.
  - unfold parse_car_generation_page. rewrite Hf. simpl.
    now rewrite app_nil_r.
Qed.

(** X6. Whatever the server and the page are, a generation-page task only
    appends to the accumulator: the records that were there stay, in
    place and unchanged, and every record it adds has every key of the
    dictionary it was given and each of the six trim fields. *)
Theorem generation_page_only_appends_complete_records
        (web : str -> nat -> attempt_result) (clock : nat -> Q)
        (disk : nat -> write_outcome) (url : str) (data : dict) (w : world) :
  exists recs,
    all_data (snd (fst (parse_car_generation_page
                          web clock disk url data w)))
    = all_data w ++ recs
    /\ forall rec k,
        In rec recs ->
        In k (keys data) \/ In k TRIM_FIELDS ->
        In k (keys rec).
Proof.
  rewrite parse_car_generation_page_all_data.
  eexists. split; [reflexivity|].
  intros rec k Hrec Hk.
  assert (Hstart : In k (keys (set_placeholders data))).
  { unfold set_placeholders. apply keys_set_all. tauto. }
  destruct (snd (fetch_url (web url) url)) as [r|]; [|contradiction].
  destruct (find_trim_table (text r)) as [[|first rows]|].
  - contradiction.
  - destruct (emitted_In_gen (map strip (find_all_th first))
                             (fun d => In k (keys d)))
      with (rows := rows) (d := set_placeholders data) (rec := rec)
      as [r' [d' [_ [_ [Hd' ->]]]]].
    + intros d columns. apply keys_reset_written_mono.
    + intros d label H. apply keys_dict_set. now right.
    + exact Hstart.
    + exact Hrec.
    + now apply write_cells_keys_mono.
  - destruct Hrec as [<-|[]]. exact Hstart.
Qed.

(** X7. A fetched generation page whose table has a first row makes the
    task append one record for every later row that has no [<th>] with a
    [colspan], and none for the rows that have one, wherever these
    stand. *)
Theorem generation_page_appends_one_record_per_data_row
        (web : str -> nat -> attempt_result) (clock : nat -> Q)
        (disk : nat -> write_outcome) (url : str) (data : dict) (w : world)
        (tr : list event) (r : response) (first : row) (rows : list row) :
  fetch_url (web url) url = (tr, Some r) ->
  find_trim_table (text r) = Some (first :: rows) ->
  exists recs,
    all_data (snd (fst (parse_car_generation_page
                          web clock disk url data w)))
    = all_data w ++ recs
    /\ List.length recs = List.length (filter is_data_row rows).
Proof.
  intros Hf Ht. rewrite parse_car_generation_page_all_data, Hf.
  change (snd (tr, Some r)) with (Some r). cbv iota. rewrite Ht. eexists. split; [reflexivity|].
  apply emitted_count.
Qed.

(** Witness of X7: the table with two section rows and three data rows. *)
Lemma generation_page_appends_one_record_per_data_row_witness :
  exists recs,
    all_data (snd (fst (parse_car_generation_page
                          web_sectioned idle_clock good_disk
                          sample_url sample_data empty_world)))
    = all_data empty_world ++ recs
    /\ List.length recs
       = List.length (filter is_data_row (tl sectioned_table)).
Proof.
  eapply (generation_page_appends_one_record_per_data_row
            web_sectioned idle_clock good_disk sample_url sample_data
            empty_world _ _ (hd [] sectioned_table) (tl sectioned_table)).
  - vm_compute. reflexivity.
  - reflexivity.
Defined.

Lemma emitted_app (headers : list str) (rows1 rows2 : list row) :
  forall d w,
    emitted headers (rows1 ++ rows2) d
    = emitted headers rows1 d
      ++ emitted headers rows2 (fst (process_rows headers rows1 (d, w))).
Proof.
  unfold process_rows.
  induction rows1 as [|r rows1 IH]; intros d w; simpl.
  - reflexivity.
  - destruct (find_th_colspan r) as [th|].
    + apply IH.
    + simpl. f_equal. apply IH.
Qed.

Lemma emitted_In_data (headers : list str) (P : dict -> Prop) :
  (forall d columns,
      P d -> P (reset_fields (write_cells headers columns d))) ->
  forall rows,
    Forall (fun r => find_th_colspan r = None) rows ->
    forall d rec,
      P d ->
      In rec (emitted headers rows d) ->
      exists r d',
        In r rows /\ P d' /\ rec = write_cells headers (find_all_td r) d'.
Proof.
  intros Hdata rows Hrows.
  induction Hrows as [|r rows Hr _ IH]; intros d rec Hd Hin; simpl in Hin.
  - contradiction.
  - rewrite Hr in Hin. destruct Hin as [<-|Hin].
    + exists r, d. split; [now left|]. tauto.
    + destruct (IH _ _ (Hdata d (find_all_td r) Hd) Hin)
        as [r' [d' [H1 H2]]].
      exists r', d'. split; [now right | exact H2].
Qed.

Lemma section_label_kept (headers columns : list str) (d : dict) :
  ~ In K_SECTION headers ->
  dict_get K_SECTION (reset_fields (write_cells headers columns d))
  = dict_get K_SECTION d.
Proof.
  intros H. unfold reset_fields. rewrite dict_get_set_all.
  change (mem K_SECTION RESET_FIELDS) with false. cbv iota.
  apply write_cells_not_header. tauto.
Qed.

(** X8. In a fetched table without a column named like the section field,
    every record appended for the data rows between a section-header row
    and the next one carries the stripped text of that section header as
    its section label. *)
Theorem section_label_reaches_following_records
        (web : str -> nat -> attempt_result) (clock : nat -> Q)
        (disk : nat -> write_outcome) (url : str) (data : dict) (w : world)
        (tr : list event) (r : response) (first : row)
        (before : list row) (s : row) (th : str)
        (rows after : list row) :
  fetch_url (web url) url = (tr, Some r) ->
  find_trim_table (text r) = Some (first :: before ++ s :: rows ++ after) ->
  find_th_colspan s = Some th ->
  Forall (fun x => find_th_colspan x = None) rows ->
  ~ In K_SECTION (map strip (find_all_th first)) ->
  exists recs0 recs recs1,
    all_data (snd (fst (parse_car_generation_page
                          web clock disk url data w)))
    = all_data w ++ recs0 ++ recs ++ recs1
    /\ List.length recs0 = List.length (filter is_data_row before)
    /\ List.length recs = List.length rows
    /\ Forall (fun rec => dict_get K_SECTION rec = Some (strip th)) recs.
Proof.
  intros Hf Ht Hs Hrows Hsec.
  rewrite parse_car_generation_page_all_data, Hf.
  change (snd (tr, Some r)) with (Some r). cbv iota. rewrite Ht.
  set (headers := map strip (find_all_th first)) in *.
  rewrite (emitted_app headers before (s :: rows ++ after) _ w).
  set (d1 := fst (process_rows headers before (set_placeholders data, w))).
  cbn [emitted]. rewrite Hs.
  rewrite (emitted_app headers rows after _ w).
  do 3 eexists. split; [reflexivity|].
  split; [apply emitted_count|].
  split; [now apply emitted_length|].
  apply Forall_forall. intros rec Hrec.
  destruct (emitted_In_data
              headers (fun d => dict_get K_SECTION d = Some (strip th)))
    with (rows := rows) (d := dict_set K_SECTION (strip th) d1) (rec := rec)
    as [x [d' [_ [Hd' ->]]]].
  - intros d columns Hd. now rewrite section_label_kept.
  - exact Hrows.
  - apply dict_get_set_eq.
  - exact Hrec.
  - rewrite write_cells_not_header by tauto. exact Hd'.
Qed.

(** Witness of X8: the two data rows under the second section row. *)
Lemma section_label_reaches_following_records_witness :
  exists recs0 recs recs1,
    all_data (snd (fst (parse_car_generation_page
                          web_sectioned idle_clock good_disk
                          sample_url sample_data empty_world)))
    = all_data empty_world ++ recs0 ++ recs ++ recs1
    /\ List.length recs0 = 1
    /\ List.length recs = 2
    /\ Forall (fun rec => dict_get K_SECTION rec = Some (py "Универсал"))
              recs.
Proof.
  eapply (section_label_reaches_following_records
            web_sectioned idle_clock good_disk sample_url sample_data
            empty_world _ _ (hd [] sectioned_table)
            (firstn 2 (tl sectioned_table)) [Th true (py "Универсал")]
            (py "Универсал") (skipn 3 (tl sectioned_table)) []).
  - vm_compute. reflexivity.
  - reflexivity.
  - reflexivity.
  - repeat constructor.
  - vm_compute. intros [H|[H|[]]]; discriminate H.
Defined.

Lemma placeholder_fields_fixed (k : str) :
  In k PLACEHOLDER_FIELDS ->
  mem k TRIM_FIELDS = true /\ mem k RESET_FIELDS = true /\ k <> K_SECTION.
Proof.
  intros H. simpl in H.
  repeat (destruct H as [H|H];
          [subst k; repeat split; try reflexivity; discriminate|]).
  contradiction.
Qed.

(** X9. In a fetched table, each of the five fields Комплектация, Период
    выпуска, Рекомендованная цена, Марка двигателя and Марка кузова for
    which the table has no column holds the placeholder in every record
    that the task appends. *)
Theorem absent_column_is_placeholder
        (web : str -> nat -> attempt_result) (clock : nat -> Q)
        (disk : nat -> write_outcome) (url : str) (data : dict) (w : world)
        (tr : list event) (r : response) (first : row) (rows : list row) :
  fetch_url (web url) url = (tr, Some r) ->
  find_trim_table (text r) = Some (first :: rows) ->
  exists recs,
    all_data (snd (fst (parse_car_generation_page
                          web clock disk url data w)))
    = all_data w ++ recs
    /\ forall rec k,
        In rec recs ->
        In k PLACEHOLDER_FIELDS ->
        ~ In k (map strip (find_all_th first)) ->
        dict_get k rec = Some PLACEHOLDER.
Proof.
  intros Hf Ht.
  rewrite parse_car_generation_page_all_data, Hf.
  change (snd (tr, Some r)) with (Some r). cbv iota. rewrite Ht.
  eexists. split; [reflexivity|].
  intros rec k Hrec Hk Hcol.
  destruct (placeholder_fields_fixed k Hk) as [Ht' [Hr' Hs']].
  destruct (emitted_In_gen (map strip (find_all_th first))
                           (fun d => dict_get k d = Some PLACEHOLDER))
    with (rows := rows) (d := set_placeholders data) (rec := rec)
    as [x [d' [_ [_ [Hd' ->]]]]].
  - intros d columns _. unfold reset_fields.
    rewrite dict_get_set_all, Hr'. reflexivity.
  - intros d label Hd. now rewrite dict_get_set_neq.
  - unfold set_placeholders. rewrite dict_get_set_all, Ht'. reflexivity.
  - exact Hrec.
  - rewrite write_cells_not_header by tauto. exact Hd'.
Qed.

(** Witness of X9: the sample table has no column for the engine. *)
Lemma absent_column_is_placeholder_witness :
  exists recs,
    all_data (snd (fst (parse_car_generation_page
                          web_with_table idle_clock good_disk
                          sample_url sample_data empty_world)))
    = all_data empty_world ++ recs
    /\ forall rec k,
        In rec recs ->
        In k PLACEHOLDER_FIELDS ->
        ~ In k (map strip (find_all_th (hd [] sample_table))) ->
        dict_get k rec = Some PLACEHOLDER.
Proof.
  eapply (absent_column_is_placeholder
            web_with_table idle_clock good_disk sample_url sample_data
            empty_world _ _ (hd [] sample_table) (tl sample_table)).
  - vm_compute. reflexivity.
  - reflexivity.
Defined.

Lemma emitted_price_star_set (headers : list str) (rows : list row)
      (d : dict) :
  ~ In K_PRICE_STAR headers ->
  dict_get K_PRICE_STAR d = Some PLACEHOLDER ->
  Forall (fun rec => dict_get K_PRICE_STAR rec = Some PLACEHOLDER)
         (emitted headers rows d).
Proof.
  intros Hcol Hd. apply Forall_forall. intros rec Hrec.
  destruct (emitted_In_gen
              headers (fun d => dict_get K_PRICE_STAR d = Some PLACEHOLDER))
    with (rows := rows) (d := d) (rec := rec)
    as [x [d' [_ [_ [Hd' ->]]]]].
  - intros d0 columns _. unfold reset_fields.
    rewrite dict_get_set_all. reflexivity.
  - intros d0 label Hd0. rewrite dict_get_set_neq; [exact Hd0|discriminate].
  - exact Hd.
  - exact Hrec.
  - rewrite write_cells_not_header by tauto. exact Hd'.
Qed.

Lemma emitted_price_star_unset (headers : list str) (rows : list row) :
  ~ In K_PRICE_STAR headers ->
  forall d,
    dict_get K_PRICE_STAR d = None ->
    match emitted headers rows d with
    | [] => True
    | rec0 :: later =>
      dict_get K_PRICE_STAR rec0 = None
      /\ Forall (fun rec => dict_get K_PRICE_STAR rec = Some PLACEHOLDER)
                later
    end.
Proof.
  intros Hcol. induction rows as [|x rows IH]; intros d Hd; simpl.
  - exact I.
  - destruct (find_th_colspan x) as [th|].
    + apply IH. rewrite dict_get_set_neq; [exact Hd|discriminate].
    + split.
      * rewrite write_cells_not_header by tauto. exact Hd.
      * apply emitted_price_star_set; [exact Hcol|].
        unfold reset_fields. rewrite dict_get_set_all. reflexivity.
Qed.

(** X10. The field Цена* is set only after a data row (line 214): in a
    fetched table without such a column, given a dictionary without that
    key, the first record that the task appends has no Цена* at all,
    and every later record of the page has the placeholder there. *)
Theorem price_star_missing_in_first_record_only
        (web : str -> nat -> attempt_result) (clock : nat -> Q)
        (disk : nat -> write_outcome) (url : str) (data : dict) (w : world)
        (tr : list event) (r : response) (first : row) (rows : list row) :
  fetch_url (web url) url = (tr, Some r) ->
  find_trim_table (text r) = Some (first :: rows) ->
  ~ In K_PRICE_STAR (map strip (find_all_th first)) ->
  dict_get K_PRICE_STAR data = None ->
  exists recs,
    all_data (snd (fst (parse_car_generation_page
                          web clock disk url data w)))
    = all_data w ++ recs
    /\ match recs with
       | [] => True
       | rec0 :: later =>
         dict_get K_PRICE_STAR rec0 = None
         /\ Forall (fun rec => dict_get K_PRICE_STAR rec = Some PLACEHOLDER)
                   later
       end.
Proof.
  intros Hf Ht Hcol Hd.
  rewrite parse_car_generation_page_all_data, Hf.
  change (snd (tr, Some r)) with (Some r). cbv iota. rewrite Ht.
  eexists. split; [reflexivity|].
  apply emitted_price_star_unset; [exact Hcol|].
  unfold set_placeholders. rewrite dict_get_set_all.
  change (mem K_PRICE_STAR TRIM_FIELDS) with false. exact Hd.
Qed.

(** Witness of X10: the table with the section rows. *)
Lemma price_star_missing_in_first_record_only_witness :
  exists recs,
    all_data (snd (fst (parse_car_generation_page
                          web_sectioned idle_clock good_disk
                          sample_url sample_data empty_world)))
    = all_data empty_world ++ recs
    /\ match recs with
       | [] => True
       | rec0 :: later =>
         dict_get K_PRICE_STAR rec0 = None
         /\ Forall (fun rec => dict_get K_PRICE_STAR rec = Some PLACEHOLDER)
                   later
       end.
Proof.
  eapply (price_star_missing_in_first_record_only
            web_sectioned idle_clock good_disk sample_url sample_data
            empty_world _ _ (hd [] sectioned_table) (tl sectioned_table)).
  - vm_compute. reflexivity.
  - reflexivity.
  - vm_compute. intros [H|[H|[]]]; discriminate H.
  - reflexivity.
Defined.

Lemma fold_write_beyond_headers (headers : list str)
      (l : list (nat * str)) :
  (forall i c, In (i, c) l -> List.length headers <= i) ->
  forall d, fold_left (write_cell headers) l d = d.
Proof.
  induction l as [|[i c] l IH]; intros H d; simpl; [reflexivity|].
  assert (E : nth_error headers i = None).
  { apply nth_error_None. apply (H i c). now left. }
  rewrite E. apply IH. intros j c' Hin. apply (H j c'). now right.
Qed.

(** X11. Cells beyond the number of headers never reach the record: a row
    with at least as many cells as there are headers is written exactly
    like the same row cut after any further cell. *)
Theorem cells_beyond_headers_are_ignored
        (headers columns more : list str) (d : dict) :
  List.length headers <= List.length columns ->
  write_cells headers (columns ++ more) d = write_cells headers columns d.
Proof.
  intros Hlen. destruct more as [|c more].
  - now rewrite app_nil_r.
  - unfold write_cells, enumerate.
    rewrite enumerate_split, fold_left_app.
    apply fold_write_beyond_headers.
    intros i c' [Hin|Hin].
    + injection Hin as <- _. lia.
    + apply combine_seq_bounds in Hin. lia.
Qed.

(** Witness of X11: the last row of the table with the section rows has
    three cells under two headers. *)
Lemma cells_beyond_headers_are_ignored_witness :
  write_cells [K_TRIM; K_PERIOD]
              ([py "2.0 AT"; py "2011 - 2013"] ++ [py "x"])
              (set_placeholders sample_data)
  = write_cells [K_TRIM; K_PERIOD] [py "2.0 AT"; py "2011 - 2013"]
                (set_placeholders sample_data).
Proof.
  apply (cells_beyond_headers_are_ignored
           [K_TRIM; K_PERIOD] [py "2.0 AT"; py "2011 - 2013"] [py "x"]).
  simpl. lia.
Defined.

(* ===================================================================== *)
(** * Further properties of the persister                                 *)
(* ===================================================================== *)

Lemma periodic_save_not_due (clock : nat -> Q)
      (disk : nat -> write_outcome) (w : world) :
  (float_sub (clock (clock_reads w)) (last_save_time w) < SAVE_INTERVAL)%Q ->
  periodic_save clock disk w = (snd (time_time clock w), []).
Proof.
  intros H. unfold periodic_save, time_time. cbn [last_save_time snd].
  destruct (Qle_bool SAVE_INTERVAL
                     (float_sub (clock (clock_reads w)) (last_save_time w)))
    eqn:E; [|reflexivity].
  apply Qle_bool_iff in E. exfalso. exact (Qlt_not_le _ _ H E).
Qed.

(** X12. As long as the float difference that line 218 computes from the
    next reading of the clock and the time of the last save (the double
    nearest to their difference) is less than 20, a generation-page task
    writes nothing, whatever path it takes: the file, the number of writes
    and the time of the last save are what they were. *)
Theorem no_write_before_interval
        (web : str -> nat -> attempt_result) (clock : nat -> Q)
        (disk : nat -> write_outcome) (url : str) (data : dict) (w : world) :
  (float_sub (clock (clock_reads w)) (last_save_time w) < SAVE_INTERVAL)%Q ->
  let w' :=
    snd (fst (parse_car_generation_page web clock disk url data w)) in
  file w' = file w
  /\ disk_writes w' = disk_writes w
  /\ last_save_time w' = last_save_time w.
Proof.
  intros Hearly w'. subst w'.
  destruct (fetch_url (web url) url) as [tr [r|]] eqn:Hf.
  - rewrite (parse_car_generation_page_fetched _ clock disk _ data w _ _ Hf).
    destruct (find_trim_table (text r)) as [[|first rest]|]; cbv zeta.
    + simpl. tauto.
    + destruct (process_rows_emitted (map strip (find_all_th first)) rest
                                     (set_placeholders data) w)
        as [_ [Ht [Hfile [Hc Hw]]]].
      destruct (process_rows (map strip (find_all_th first)) rest
                             (set_placeholders data, w)) as [d1 w1].
      simpl snd in Ht, Hfile, Hc, Hw.
      rewrite periodic_save_not_due by (rewrite Hc, Ht; exact Hearly).
      simpl. repeat split; assumption.
    + simpl. tauto.
  - unfold parse_car_generation_page. rewrite Hf. simpl. tauto.
Qed.

(** Witness of X12: the sample table, 5 seconds after the last save. *)
Lemma no_write_before_interval_witness :
  let w' := snd (fst (parse_car_generation_page
                        web_with_table early_clock good_disk
                        sample_url sample_data empty_world)) in
  file w' = file empty_world
  /\ disk_writes w' = disk_writes empty_world
  /\ last_save_time w' = last_save_time empty_world.
Proof.
  apply (no_write_before_interval
           web_with_table early_clock good_disk sample_url sample_data
           empty_world).
  vm_compute. reflexivity.
Defined.

(** A save never touches what is in memory, whether the write
    succeeds or raises: the accumulator, the time of the last save and the
    clock are what they were, one write is counted, and exactly one line is
    logged, at level INFO after a successful write and at level ERROR after
    a failed one. *)
Theorem save_keeps_memory (disk : nat -> write_outcome) (w : world) :
  let w' := fst (save_data_to_excel disk w) in
  let tr := snd (save_data_to_excel disk w) in
  all_data w' = all_data w
  /\ last_save_time w' = last_save_time w
  /\ clock_reads w' = clock_reads w
  /\ disk_writes w' = S (disk_writes w)
  /\ match disk (disk_writes w) with
     | Written =>
       tr = [Log INFO (MsgSaved FILENAME)]
       /\ file w' = Some (make_DataFrame (all_data w))
     | WriteFails remains =>
       tr = [Log ERROR MsgSaveFailed] /\ file w' = remains
     end.
Proof.
  unfold save_data_to_excel.
  destruct (disk (disk_writes w)); simpl; repeat split; reflexivity.
Qed.

(* ===================================================================== *)
(** * The text of a cell                                                  *)
(* ===================================================================== *)

Lemma lstrip_starts_clean (s : str) : starts_clean (lstrip s) = true.
Proof.
  induction s as [|c t IH]; simpl; [reflexivity|].
  destruct (is_space c) eqn:E; [exact IH|]. simpl. now rewrite E.
Qed.

Lemma lstrip_suffix (s : str) :
  exists pre, s = pre ++ lstrip s /\ visible pre = [].
Proof.
  induction s as [|c t [pre [IH1 IH2]]]; simpl.
  - exists []. split; reflexivity.
  - destruct (is_space c) eqn:E.
    + exists (c :: pre). split; [simpl; now f_equal|].
      unfold visible. simpl. rewrite E. exact IH2.
    + exists []. split; reflexivity.
Qed.

Lemma lstrip_clean_id (s : str) : starts_clean s = true -> lstrip s = s.
Proof.
  destruct s as [|c t]; simpl; [reflexivity|].
  intros H. apply negb_true_iff in H. now rewrite H.
Qed.

Lemma starts_clean_prefix (a b : str) :
  starts_clean (a ++ b) = true -> a <> [] -> starts_clean a = true.
Proof. destruct a; simpl; [congruence | tauto]. Qed.

Lemma strip_trimmed (s : str) : trimmed (strip s) = true.
Proof.
  unfold trimmed, strip, rstrip. rewrite rev_involutive.
  rewrite lstrip_starts_clean, andb_true_r.
  destruct (lstrip_suffix (rev (lstrip s))) as [pre [E _]].
  destruct (lstrip (rev (lstrip s))) as [|c u] eqn:Eu; [reflexivity|].
  apply starts_clean_prefix with (b := rev pre).
  - rewrite <- rev_app_distr, <- E, rev_involutive.
    apply lstrip_starts_clean.
  - simpl. intros H. apply app_eq_nil in H. destruct H as [_ H].
    discriminate H.
Qed.

Lemma strip_trimmed_id (s : str) : trimmed s = true -> strip s = s.
Proof.
  unfold trimmed. intros H. apply andb_true_iff in H. destruct H as [H1 H2].
  unfold strip, rstrip.
  rewrite (lstrip_clean_id s H1), (lstrip_clean_id (rev s) H2).
  apply rev_involutive.
Qed.

Lemma visible_lstrip (s : str) : visible (lstrip s) = visible s.
Proof.
  induction s as [|c t IH]; [reflexivity|].
  cbn [lstrip]. destruct (is_space c) eqn:E; [|reflexivity].
  rewrite IH. unfold visible. simpl. now rewrite E.
Qed.

Lemma visible_strip (s : str) : visible (strip s) = visible s.
Proof.
  unfold strip, rstrip. unfold visible at 1.
  rewrite filter_rev. fold (visible (lstrip (rev (lstrip s)))).
  rewrite visible_lstrip. unfold visible at 1.
  rewrite filter_rev, rev_involutive. apply visible_lstrip.
Qed.

Lemma sub_spaces_true_starts_clean (s : str) :
  starts_clean (sub_spaces true s) = true.
Proof.
  induction s as [|c t IH]; simpl; [reflexivity|].
  destruct (is_space c) eqn:E; [exact IH|]. simpl. now rewrite E.
Qed.

Lemma sub_spaces_single_spaced (s : str) :
  forall in_run, single_spaced (sub_spaces in_run s) = true.
Proof.
  induction s as [|c t IH]; intros in_run; simpl; [reflexivity|].
  destruct (is_space c) eqn:E.
  - destruct in_run; [apply IH|].
    simpl. rewrite sub_spaces_true_starts_clean, IH. reflexivity.
  - simpl. rewrite E, IH. reflexivity.
Qed.

Lemma sub_spaces_starts_clean (s : str) :
  forall in_run,
    starts_clean s = true -> starts_clean (sub_spaces in_run s) = true.
Proof.
  destruct s as [|c t]; intros in_run H; simpl in *; [reflexivity|].
  apply negb_true_iff in H. rewrite H. simpl. now rewrite H.
Qed.

Lemma sub_spaces_snoc (s : str) (c : N) :
  is_space c = false ->
  forall in_run, sub_spaces in_run (s ++ [c]) = sub_spaces in_run s ++ [c].
Proof.
  intros Hc. induction s as [|x t IH]; intros in_run; simpl.
  - now rewrite Hc.
  - destruct (is_space x).
    + destruct in_run; [apply IH|]. simpl. now rewrite IH.
    + simpl. now rewrite IH.
Qed.

Lemma sub_spaces_ends_clean (s : str) (in_run : bool) :
  starts_clean (rev s) = true ->
  starts_clean (rev (sub_spaces in_run s)) = true.
Proof.
  intros H. destruct (rev s) as [|c u] eqn:E.
  - apply (f_equal (@rev N)) in E. rewrite rev_involutive in E.
    subst s. reflexivity.
  - apply (f_equal (@rev N)) in E. rewrite rev_involutive in E.
    simpl in E. subst s. simpl in H. apply negb_true_iff in H.
    rewrite (sub_spaces_snoc _ _ H), rev_app_distr. simpl.
    now rewrite H.
Qed.

Lemma visible_sub_spaces (s : str) :
  forall in_run, visible (sub_spaces in_run s) = visible s.
Proof.
  unfold visible.
  induction s as [|c t IH]; intros in_run; simpl; [reflexivity|].
  destruct (is_space c) eqn:E; simpl.
  - destruct in_run; [apply IH|]. simpl. apply IH.
  - rewrite E. simpl. now rewrite IH.
Qed.

Lemma sub_spaces_single_spaced_id (s : str) :
  forall in_run,
    single_spaced s = true ->
    (in_run = true -> starts_clean s = true) ->
    sub_spaces in_run s = s.
Proof.
  induction s as [|c t IH]; intros in_run Hs Hrun; simpl; [reflexivity|].
  simpl in Hs. apply andb_true_iff in Hs. destruct Hs as [Hc Ht].
  destruct (is_space c) eqn:E.
  - simpl in Hc. apply andb_true_iff in Hc. destruct Hc as [H32 Hnext].
    apply N.eqb_eq in H32. subst c.
    destruct in_run.
    + specialize (Hrun eq_refl). vm_compute in Hrun. discriminate Hrun.
    + f_equal. apply IH; [exact Ht | intros _; exact Hnext].
  - f_equal. apply IH; [exact Ht | intros H; discriminate H].
Qed.

(** X13. The value that lines 202-203 store for a cell has no white space
    at either end, its only white space is single U+0020 spaces, it has the
    visible code points of the cell text in the same order, and computing
    it again from itself gives it back. *)
Theorem cell_value_is_normalised (column : str) :
  let value := re_sub_spaces (strip column) in
  trimmed value = true
  /\ single_spaced value = true
  /\ visible value = visible column
  /\ re_sub_spaces (strip value) = value.
Proof.
  intros value. subst value. unfold re_sub_spaces.
  pose proof (strip_trimmed column) as Ht.
  unfold trimmed in Ht. apply andb_true_iff in Ht. destruct Ht as [H1 H2].
  assert (T : trimmed (sub_spaces false (strip column)) = true).
  { unfold trimmed.
    rewrite (sub_spaces_starts_clean _ _ H1), (sub_spaces_ends_clean _ _ H2).
    reflexivity. }
  split; [exact T|].
  split; [apply sub_spaces_single_spaced|].
  split; [rewrite visible_sub_spaces; apply visible_strip|].
  rewrite (strip_trimmed_id _ T).
  apply sub_spaces_single_spaced_id.
  - apply sub_spaces_single_spaced.
  - intros H. discriminate H.
Qed.

(* ===================================================================== *)
(** * Further properties of the model-page stage                          *)
(* ===================================================================== *)

Lemma first_error_None {A : Type} (error : A -> option exn) (l : list A) :
  first_error error l = None <-> forall x, In x l -> error x = None.
Proof.
  induction l as [|a l IH]; simpl.
  - split; [intros _ x [] | reflexivity].
  - destruct (error a) as [e|] eqn:Ea.
    + split; [discriminate|].
      intros H. rewrite <- Ea. apply H. now left.
    + rewrite IH. split.
      * intros H x [<-|Hx]; [exact Ea | now apply H].
      * intros H x Hx. apply H. now right.
Qed.

Lemma first_error_Some {A : Type} (error : A -> option exn) (l : list A)
      (e : exn) :
  first_error error l = Some e -> exists x, In x l /\ error x = Some e.
Proof.
  induction l as [|a l IH]; simpl; [discriminate|].
  destruct (error a) as [e'|] eqn:Ea.
  - intros H. injection H as <-. exists a. split; [now left | exact Ea].
  - intros H. destruct (IH H) as [x [Hx Hex]].
    exists x. split; [now right | exact Hex].
Qed.

Lemma href_error_None (urljoin : str -> str -> option str) (base : str)
      (h : option str) :
  href_error urljoin base h = None
  <-> exists reference joined,
      h = Some reference /\ urljoin base (strip reference) = Some joined.
Proof.
  unfold href_error. destruct h as [reference|].
  - destruct (urljoin base (strip reference)) as [joined|] eqn:Ej.
    + split; [|reflexivity]. intros _. exists reference, joined. now split.
    + split; [discriminate|].
      intros [reference' [joined [H1 H2]]]. injection H1 as <-. congruence.
  - split; [discriminate|]. intros [reference [joined [H _]]]. discriminate.
Qed.

Lemma href_error_kind (urljoin : str -> str -> option str) (base : str)
      (h : option str) (e : exn) :
  href_error urljoin base h = Some e -> e = AttributeError \/ e = ValueError.
Proof.
  unfold href_error. destruct h as [reference|].
  - destruct (urljoin base (strip reference)); [discriminate|].
    intros H. injection H as <-. now right.
  - intros H. injection H as <-. now left.
Qed.

Lemma block_error_kind (urljoin : str -> str -> option str) (base : str)
      (c : country_div) (e : exn) :
  block_error urljoin base c = Some e -> e = AttributeError \/ e = ValueError.
Proof.
  unfold block_error. destruct (country_name c) as [name|].
  - intros H. apply first_error_Some in H. destruct H as [l [_ H]].
    exact (href_error_kind _ _ _ _ H).
  - intros H. injection H as <-. now left.
Qed.

Lemma block_error_None (urljoin : str -> str -> option str) (base : str)
      (c : country_div) :
  block_error urljoin base c = None
  <-> (exists name, country_name c = Some name)
      /\ forall l, In l (car_generation_links c) ->
                   exists h u,
                     href l = Some h /\ urljoin base (strip h) = Some u.
Proof.
  unfold block_error. destruct (country_name c) as [name|].
  - rewrite first_error_None. split.
    + intros H. split; [now exists name|].
      intros l Hl. apply href_error_None. exact (H l Hl).
    + intros [_ H] l Hl. apply href_error_None. exact (H l Hl).
  - split; [discriminate|]. intros [[name H] _]. discriminate.
Qed.

Section ModelPage.

Variable web : str -> nat -> attempt_result.
Variable clock : nat -> Q.
Variable disk : nat -> write_outcome.
Variable urljoin : str -> str -> option str.

Lemma submit_generations_tasks (car_model_url : str) (country_data : dict)
      (links : list generation_link) :
  forall u d,
    In (u, d) (fst (submit_generations urljoin car_model_url country_data
                                       links)) ->
    exists l h,
      In l links /\ href l = Some h
      /\ urljoin car_model_url (strip h) = Some u
      /\ d = dict_set K_DESCRIPTION (link_text l) country_data.
Proof.
  induction links as [|l links IH]; intros u d Hin; simpl in Hin.
  - contradiction.
  - destruct (href l) as [h|] eqn:Eh; [|contradiction].
    destruct (urljoin car_model_url (strip h)) as [joined|] eqn:Ej;
      [|contradiction].
    destruct (submit_generations urljoin car_model_url country_data links)
      as [ts e].
    destruct Hin as [Hin|Hin].
    + injection Hin as <- <-. exists l, h.
      split; [now left|]. repeat split; assumption.
    + destruct (IH u d Hin) as [l' [h' [H1 H2]]].
      exists l', h'. split; [now right | exact H2].
Qed.

Lemma submit_generations_stopped (car_model_url : str) (country_data : dict)
      (links : list generation_link) :
  snd (submit_generations urljoin car_model_url country_data links)
  = first_error (link_error urljoin car_model_url) links.
Proof.
  induction links as [|l links IH]; simpl; [reflexivity|].
  unfold link_error at 1, href_error.
  destruct (href l) as [h|]; [|reflexivity].
  destruct (urljoin car_model_url (strip h)) as [joined|]; [|reflexivity].
  destruct (submit_generations urljoin car_model_url country_data links)
    as [ts e].
  simpl in *. exact IH.
Qed.

Lemma submit_generations_count (car_model_url : str) (country_data : dict)
      (links : list generation_link) :
  first_error (link_error urljoin car_model_url) links = None ->
  List.length (fst (submit_generations urljoin car_model_url country_data
                                       links))
  = List.length links.
Proof.
  induction links as [|l links IH]; simpl; [reflexivity|].
  unfold link_error at 1, href_error.
  destruct (href l) as [h|]; [|discriminate].
  destruct (urljoin car_model_url (strip h)) as [joined|]; [|discriminate].
  intros H. specialize (IH H).
  destruct (submit_generations urljoin car_model_url country_data links)
    as [ts e].
  simpl in *. now rewrite IH.
Qed.

Lemma submit_countries_tasks (car_model_url : str) (data : dict)
      (divs : list country_div) :
  forall u d,
    In (u, d) (fst (submit_countries urljoin car_model_url data divs)) ->
    exists c l name h,
      In c divs /\ In l (car_generation_links c)
      /\ country_name c = Some name /\ href l = Some h
      /\ urljoin car_model_url (strip h) = Some u
      /\ d = dict_set K_DESCRIPTION (link_text l)
                      (dict_set K_COUNTRY name data).
Proof.
  induction divs as [|c divs IH]; intros u d Hin; simpl in Hin.
  - contradiction.
  - destruct (country_name c) as [name|] eqn:En; [|contradiction].
    pose proof (submit_generations_tasks
                  car_model_url (dict_set K_COUNTRY name (dict_copy data))
                  (car_generation_links c) u d) as Hg.
    destruct (submit_generations urljoin car_model_url
                (dict_set K_COUNTRY name (dict_copy data))
                (car_generation_links c)) as [ts [e|]].
    + destruct (Hg Hin) as [l [h [H1 [H2 [H3 H4]]]]].
      exists c, l, name, h. split; [now left|]. repeat split; assumption.
    + destruct (submit_countries urljoin car_model_url data divs)
        as [ts' e'].
      simpl in Hin, Hg, IH. apply in_app_or in Hin.
      destruct Hin as [Hin|Hin].
      * destruct (Hg Hin) as [l [h [H1 [H2 [H3 H4]]]]].
        exists c, l, name, h. split; [now left|].
        repeat split; assumption.
      * destruct (IH u d Hin) as [c' [l [name' [h [H1 H2]]]]].
        exists c', l, name', h. split; [now right | exact H2].
Qed.

Lemma submit_countries_stopped (car_model_url : str) (data : dict)
      (divs : list country_div) :
  snd (submit_countries urljoin car_model_url data divs)
  = first_error (block_error urljoin car_model_url) divs.
Proof.
  induction divs as [|c divs IH]; simpl; [reflexivity|].
  unfold block_error at 1.
  destruct (country_name c) as [name|]; [|reflexivity].
  pose proof (submit_generations_stopped
                car_model_url (dict_set K_COUNTRY name (dict_copy data))
                (car_generation_links c)) as Hg.
  destruct (submit_generations urljoin car_model_url
              (dict_set K_COUNTRY name (dict_copy data))
              (car_generation_links c)) as [ts e].
  simpl in Hg. subst e.
  destruct (first_error (link_error urljoin car_model_url)
                        (car_generation_links c)); [reflexivity|].
  destruct (submit_countries urljoin car_model_url data divs) as [ts' e'].
  simpl in *. exact IH.
Qed.

Lemma submit_countries_count (car_model_url : str) (data : dict)
      (divs : list country_div) :
  first_error (block_error urljoin car_model_url) divs = None ->
  List.length (fst (submit_countries urljoin car_model_url data divs))
  = List.length (flat_map car_generation_links divs).
Proof.
  induction divs as [|c divs IH]; simpl; [reflexivity|].
  unfold block_error at 1.
  destruct (country_name c) as [name|]; [|discriminate].
  destruct (first_error (link_error urljoin car_model_url)
                        (car_generation_links c)) eqn:Hc; [discriminate|].
  intros Hrest. specialize (IH Hrest).
  pose proof (submit_generations_stopped
                car_model_url (dict_set K_COUNTRY name (dict_copy data))
                (car_generation_links c)) as Hs.
  pose proof (submit_generations_count
                car_model_url (dict_set K_COUNTRY name (dict_copy data))
                (car_generation_links c) Hc) as Hn.
  rewrite Hc in Hs.
  destruct (submit_generations urljoin car_model_url
              (dict_set K_COUNTRY name (dict_copy data))
              (car_generation_links c)) as [ts e].
  simpl in Hs, Hn. subst e.
  destruct (submit_countries urljoin car_model_url data divs) as [ts' e'].
  simpl in *. rewrite !length_app. congruence.
Qed.

End ModelPage.

(** X14. The submission loop of a model page (lines 136-154) submits, for
    every generation link it gets to, the link's [href] stripped and
    resolved against the model URL, with the model's dictionary extended
    by the country name and the link text and nothing else. It stops at
    the first country block without a name element or link without [href]
    ([AttributeError]) or link whose reference [urljoin] rejects
    ([ValueError]), and with no other exception; it runs to its end
    exactly when every block has a name and every link an [href] that
    [urljoin] resolves, and then submits one task per link. *)
Theorem model_page_submits_one_task_per_link
        (urljoin : str -> str -> option str) (car_model_url : str)
        (data : dict) (divs : list country_div) :
  let tasks := fst (submit_countries urljoin car_model_url data divs) in
  let stopped := snd (submit_countries urljoin car_model_url data divs) in
  (forall u d,
      In (u, d) tasks ->
      exists c l name h,
        In c divs /\ In l (car_generation_links c)
        /\ country_name c = Some name /\ href l = Some h
        /\ urljoin car_model_url (strip h) = Some u
        /\ d = dict_set K_DESCRIPTION (link_text l)
                        (dict_set K_COUNTRY name data))
  /\ stopped = first_error (block_error urljoin car_model_url) divs
  /\ (forall e, stopped = Some e -> e = AttributeError \/ e = ValueError)
  /\ (stopped = None
      <-> forall c,
        In c divs ->
        (exists name, country_name c = Some name)
        /\ forall l, In l (car_generation_links c) ->
                     exists h u,
                       href l = Some h
                       /\ urljoin car_model_url (strip h) = Some u)
  /\ (stopped = None ->
      List.length tasks
      = List.length (flat_map car_generation_links divs)).
Proof.
  intros tasks stopped. subst tasks stopped.
  rewrite submit_countries_stopped.
  split; [apply submit_countries_tasks|].
  split; [reflexivity|].
  split.
  { intros e H. apply first_error_Some in H. destruct H as [c [_ H]].
    exact (block_error_kind _ _ _ _ H). }
  split.
  { rewrite first_error_None. split.
    - intros H c Hc. apply block_error_None. exact (H c Hc).
    - intros H c Hc. apply block_error_None. exact (H c Hc). }
  apply submit_countries_count.
Qed.


Lemma generation_page_appended_keys
      (web : str -> nat -> attempt_result) (clock : nat -> Q)
      (disk : nat -> write_outcome) (url : str) (data : dict) (w : world) :
  exists recs,
    all_data (snd (fst (parse_car_generation_page
                          web clock disk url data w)))
    = all_data w ++ recs
    /\ Forall (fun rec => forall k,
                   In k (keys data) \/ In k TRIM_FIELDS -> In k (keys rec))
              recs.
Proof.
  rewrite parse_car_generation_page_all_data.
  eexists. split; [reflexivity|].
  apply Forall_forall. intros rec Hrec k Hk.
  assert (Hstart : In k (keys (set_placeholders data))).
  { unfold set_placeholders. apply keys_set_all. tauto. }
  destruct (snd (fetch_url (web url) url)) as [r|]; [|contradiction].
  destruct (find_trim_table (text r)) as [[|first rows]|].
  - contradiction.
  - destruct (emitted_In_gen (map strip (find_all_th first))
                             (fun d => In k (keys d)))
      with (rows := rows) (d := set_placeholders data) (rec := rec)
      as [r' [d' [_ [_ [Hd' ->]]]]].
    + intros d columns. apply keys_reset_written_mono.
    + intros d label H. apply keys_dict_set. now right.
    + exact Hstart.
    + exact Hrec.
    + now apply write_cells_keys_mono.
  - destruct Hrec as [<-|[]]. exact Hstart.
Qed.

Lemma run_generation_tasks_appended
      (web : str -> nat -> attempt_result) (clock : nat -> Q)
      (disk : nat -> write_outcome) (tasks : list task) :
  forall w,
    exists recs,
      all_data (snd (fst (run_generation_tasks web clock disk tasks w)))
      = all_data w ++ recs
      /\ Forall (fun rec =>
                   exists u d,
                     In (u, d) tasks
                     /\ forall k, In k (keys d) \/ In k TRIM_FIELDS ->
                                  In k (keys rec))
                recs.
Proof.
  induction tasks as [|[u d] tasks IH]; intros w.
  - exists []. split; [simpl; now rewrite app_nil_r | constructor].
  - rewrite run_generation_tasks_cons. cbn [fst snd].
    destruct (generation_page_appended_keys web clock disk u d w)
      as [recs1 [H1 F1]].
    destruct (IH (snd (fst (parse_car_generation_page
                              web clock disk u d w))))
      as [recs2 [H2 F2]].
    exists (recs1 ++ recs2). split.
    + rewrite H2, H1. now rewrite app_assoc.
    + apply Forall_app. split.
      * eapply Forall_impl; [|exact F1]. intros rec H.
        exists u, d. split; [now left | exact H].
      * eapply Forall_impl; [|exact F2].
        intros rec [u' [d' [Hin H]]].
        exists u', d'. split; [now right | exact H].
Qed.

(** X16. Whatever the server returns, a model-page stage only appends to the
    accumulator, and every record it adds has every key of the dictionary
    the stage was given, the country and description keys, and each of the
    six trim fields. *)
Theorem model_page_only_appends_complete_records
        (web : str -> nat -> attempt_result) (clock : nat -> Q)
        (disk : nat -> write_outcome) (urljoin : str -> str -> option str)
        (car_model_url : str) (data : dict) (w : world) :
  exists recs,
    all_data (snd (fst (parse_car_model_page web clock disk urljoin
                                             car_model_url data w)))
    = all_data w ++ recs
    /\ forall rec k,
        In rec recs ->
        In k (keys data) \/ k = K_COUNTRY \/ k = K_DESCRIPTION
        \/ In k TRIM_FIELDS ->
        In k (keys rec).
Proof.
  unfold parse_car_model_page.
  destruct (fetch_url (web car_model_url) car_model_url) as [tr [mr|]] eqn:Hf.
  - rewrite (fetch_url_Some_bool _ _ _ _ Hf). simpl negb. cbv iota.
    pose proof (submit_countries_tasks
                  urljoin car_model_url data
                  (find_country_divs (text mr))) as Ht.
    destruct (submit_countries urljoin car_model_url data
                               (find_country_divs (text mr)))
      as [tasks stopped].
    simpl fst in Ht.
    destruct (run_generation_tasks_appended web clock disk tasks w)
      as [recs [Hd Hall]].
    destruct (run_generation_tasks web clock disk tasks w)
      as [[results w'] ran].
    simpl in Hd.
    exists recs. split.
    + destruct stopped; exact Hd.
    + intros rec k Hrec Hk. rewrite Forall_forall in Hall.
      destruct (Hall rec Hrec) as [u [d [Hin Hkeys]]].
      destruct (Ht u d Hin) as [c [l [name [h [_ [_ [_ [_ [_ ->]]]]]]]]].
      apply Hkeys. destruct Hk as [Hk|[->|[->|Hk]]].
      * left. apply keys_dict_set. right. apply keys_dict_set. now right.
      * left. apply keys_dict_set. right. apply keys_dict_set. now left.
      * left. apply keys_dict_set. now left.
      * now right.
  - exists []. split; [simpl; now rewrite app_nil_r | intros rec k []].
Qed.

Lemma submit_countries_nameless
      (urljoin : str -> str -> option str) (car_model_url : str)
      (data : dict) (good : list country_div) (bad : country_div)
      (rest : list country_div) :
  first_error (block_error urljoin car_model_url) good = None ->
  country_name bad = None ->
  submit_countries urljoin car_model_url data (good ++ bad :: rest)
  = (fst (submit_countries urljoin car_model_url data good),
     Some AttributeError).
Proof.
  intros Hgood Hbad. induction good as [|c good IH]; simpl.
  - now rewrite Hbad.
  - simpl in Hgood. unfold block_error at 1 in Hgood.
    destruct (country_name c) as [name|]; [|discriminate Hgood].
    destruct (first_error (link_error urljoin car_model_url)
                          (car_generation_links c)) eqn:Hc;
      [discriminate Hgood|].
    specialize (IH Hgood).
    pose proof (submit_generations_stopped
                  urljoin car_model_url
                  (dict_set K_COUNTRY name (dict_copy data))
                  (car_generation_links c)) as Hs.
    rewrite Hc in Hs.
    destruct (submit_generations urljoin car_model_url
                (dict_set K_COUNTRY name (dict_copy data))
                (car_generation_links c)) as [ts e].
    cbn [snd] in Hs. subst e. rewrite IH.
    destruct (submit_countries urljoin car_model_url data good)
      as [ts' e'].
    reflexivity.
Qed.

(** X17. A country block without a name element, after blocks at which the
    submission loop raises nothing, ends the stage with [AttributeError]
    (line 140): the generation pages of the blocks before it are still
    processed, those of the blocks after it are never requested, and no
    exception of a task is logged. *)
Theorem nameless_country_block_stops_the_stage
        (web : str -> nat -> attempt_result) (clock : nat -> Q)
        (disk : nat -> write_outcome) (urljoin : str -> str -> option str)
        (car_model_url : str) (data : dict) (w : world)
        (mtr : list event) (mr : response)
        (good : list country_div) (bad : country_div)
        (rest : list country_div) :
  fetch_url (web car_model_url) car_model_url = (mtr, Some mr) ->
  find_country_divs (text mr) = good ++ bad :: rest ->
  first_error (block_error urljoin car_model_url) good = None ->
  country_name bad = None ->
  let ran :=
    run_generation_tasks
      web clock disk
      (fst (submit_countries urljoin car_model_url data good)) w in
  parse_car_model_page web clock disk urljoin car_model_url data w
  = (Raises AttributeError, snd (fst ran),
     (Log INFO (MsgModelRequest car_model_url) :: mtr)
       ++ [Log INFO MsgModelFetched] ++ snd ran)
  /\ forall l e, ~ In (Log l (MsgGenerationFailed e)) (snd ran).
Proof.
  intros Hf Hdivs Hgood Hbad ran. subst ran. split.
  - unfold parse_car_model_page.
    rewrite Hf, (fetch_url_Some_bool _ _ _ _ Hf), Hdivs.
    simpl negb. cbv iota.
    rewrite (submit_countries_nameless urljoin car_model_url data
                                       good bad rest Hgood Hbad).
    destruct (run_generation_tasks
                web clock disk
                (fst (submit_countries urljoin car_model_url data good)) w)
      as [[results w'] tr'].
    cbn [fst snd]. now rewrite <- app_assoc.
  - apply no_failure_line_In. apply run_generation_tasks_no_failure_line.
Qed.

(** Witness of X17: the three generation pages of the
    first block are processed, the block without a name stops the stage. *)
Lemma nameless_country_block_stops_the_stage_witness :
  let ran :=
    run_generation_tasks
      web_of_nameless_block idle_clock good_disk
      (fst (submit_countries sample_urljoin model_url sample_model_data
                             (find_country_divs model_page)))
      empty_world in
  parse_car_model_page web_of_nameless_block idle_clock good_disk
                       sample_urljoin model_url sample_model_data
                       empty_world
  = (Raises AttributeError, snd (fst ran),
     (Log INFO (MsgModelRequest model_url)
        :: fst (fetch_url (web_of_nameless_block model_url) model_url))
       ++ [Log INFO MsgModelFetched] ++ snd ran)
  /\ forall l e, ~ In (Log l (MsgGenerationFailed e)) (snd ran).
Proof.
  apply (nameless_country_block_stops_the_stage
           web_of_nameless_block idle_clock good_disk sample_urljoin
           model_url sample_model_data empty_world
           (fst (fetch_url (web_of_nameless_block model_url) model_url))
           (answer 200 model_page_with_nameless_block)
           (find_country_divs model_page)
           {| country_name := None;
              car_generation_links :=
                [ {| href := Some (py "g_2001_4/");
                     link_text := py "2001 - 2006" |} ] |}
           []).
  - vm_compute. reflexivity.
  - vm_compute. reflexivity.
  - reflexivity.
  - reflexivity.
Defined.

(* ===================================================================== *)
(** * The brand stage, the catalog stage and the entry point              *)
(* ===================================================================== *)

Lemma model_page_appended_keys
      (web : str -> nat -> attempt_result) (clock : nat -> Q)
      (disk : nat -> write_outcome) (urljoin : str -> str -> option str)
      (car_model_url : str) (data : dict) (w : world) :
  exists recs,
    all_data (snd (fst (parse_car_model_page web clock disk urljoin
                                             car_model_url data w)))
    = all_data w ++ recs
    /\ Forall (fun rec =>
                 forall k,
                   In k (keys data) \/ k = K_COUNTRY \/ k = K_DESCRIPTION
                   \/ In k TRIM_FIELDS ->
                   In k (keys rec))
              recs.
Proof.
  unfold parse_car_model_page.
  destruct (fetch_url (web car_model_url) car_model_url) as [tr [mr|]] eqn:Hf.
  - rewrite (fetch_url_Some_bool _ _ _ _ Hf). simpl negb. cbv iota.
    pose proof (submit_countries_tasks
                  urljoin car_model_url data
                  (find_country_divs (text mr))) as Ht.
    destruct (submit_countries urljoin car_model_url data
                               (find_country_divs (text mr)))
      as [tasks stopped].
    simpl fst in Ht.
    destruct (run_generation_tasks_appended web clock disk tasks w)
      as [recs [Hd Hall]].
    destruct (run_generation_tasks web clock disk tasks w)
      as [[results w'] ran].
    simpl in Hd.
    exists recs. split.
    + destruct stopped; exact Hd.
    + eapply Forall_impl; [|exact Hall].
      intros rec [u [d [Hin Hkeys]]] k Hk.
      destruct (Ht u d Hin) as [c [l [name [h [_ [_ [_ [_ [_ ->]]]]]]]]].
      apply Hkeys. destruct Hk as [Hk|[->|[->|Hk]]].
      * left. apply keys_dict_set. right. apply keys_dict_set. now right.
      * left. apply keys_dict_set. right. apply keys_dict_set. now left.
      * left. apply keys_dict_set. now left.
      * now right.
  - exists []. split; [simpl; now rewrite app_nil_r | constructor].
Qed.

Section UpperStages.

Variable web : str -> nat -> attempt_result.
Variable clock : nat -> Q.
Variable disk : nat -> write_outcome.
Variable urljoin : str -> str -> option str.
Variable find_model_links : str -> list generation_link.
Variable find_car_list_div : str -> option car_list_div.
Variable find_car_type : str -> option str.

Local Abbreviation run_models := (run_model_tasks web clock disk urljoin).
Local Abbreviation brand_page :=
  (parse_brand_page web clock disk urljoin find_model_links).
Local Abbreviation run_brands :=
  (run_brand_tasks web clock disk urljoin find_model_links).
Local Abbreviation catalog_page :=
  (parse_catalog_page web clock disk urljoin find_model_links
                      find_car_list_div find_car_type).

Lemma submit_models_tasks (car_brand_url : str) (data : dict)
      (links : list generation_link) :
  forall u d,
    In (u, d) (fst (submit_models urljoin car_brand_url data links)) ->
    exists l h,
      In l links /\ href l = Some h
      /\ urljoin car_brand_url (strip h) = Some u
      /\ d = dict_set K_MODEL (link_text l) data.
Proof.
  induction links as [|l links IH]; intros u d Hin; simpl in Hin.
  - contradiction.
  - destruct (href l) as [h|] eqn:Eh; [|contradiction].
    destruct (urljoin car_brand_url (strip h)) as [joined|] eqn:Ej;
      [|contradiction].
    destruct (submit_models urljoin car_brand_url data links) as [ts e].
    destruct Hin as [Hin|Hin].
    + injection Hin as <- <-. exists l, h.
      split; [now left|]. repeat split; assumption.
    + destruct (IH u d Hin) as [l' [h' [H1 H2]]].
      exists l', h'. split; [now right | exact H2].
Qed.


Lemma run_model_tasks_cons (u : str) (d : dict) (ts : list task)
      (w : world) :
  run_models ((u, d) :: ts) w =
  (fst (fst (parse_car_model_page web clock disk urljoin u d w))
     :: fst (fst (run_models ts (snd (fst (parse_car_model_page
                                            web clock disk urljoin u d w))))),
   snd (fst (run_models ts (snd (fst (parse_car_model_page
                                        web clock disk urljoin u d w))))),
   map Below (snd (parse_car_model_page web clock disk urljoin u d w))
   ++ snd (run_models ts (snd (fst (parse_car_model_page
                                      web clock disk urljoin u d w))))).
Proof.
  simpl.
  destruct (parse_car_model_page web clock disk urljoin u d w)
    as [[o w1] tr1].
  simpl.
  destruct (run_model_tasks web clock disk urljoin ts w1) as [[os w2] tr2].
  reflexivity.
Qed.

Lemma run_model_tasks_appended (tasks : list task) :
  forall w,
    exists recs,
      all_data (snd (fst (run_models tasks w))) = all_data w ++ recs
      /\ Forall (fun rec =>
                   exists u d,
                     In (u, d) tasks
                     /\ forall k,
                         In k (keys d) \/ k = K_COUNTRY
                         \/ k = K_DESCRIPTION \/ In k TRIM_FIELDS ->
                         In k (keys rec))
                recs.
Proof.
  induction tasks as [|[u d] tasks IH]; intros w.
  - exists []. split; [simpl; now rewrite app_nil_r | constructor].
  - rewrite run_model_tasks_cons. cbn [fst snd].
    destruct (model_page_appended_keys web clock disk urljoin u d w)
      as [recs1 [H1 F1]].
    destruct (IH (snd (fst (parse_car_model_page
                              web clock disk urljoin u d w))))
      as [recs2 [H2 F2]].
    exists (recs1 ++ recs2). split.
    + rewrite H2, H1. now rewrite app_assoc.
    + apply Forall_app. split.
      * eapply Forall_impl; [|exact F1]. intros rec H.
        exists u, d. split; [now left | exact H].
      * eapply Forall_impl; [|exact F2].
        intros rec [u' [d' [Hin H]]].
        exists u', d'. split; [now right | exact H].
Qed.

Lemma brand_page_appended_keys (car_brand_url : str) (data : dict)
      (w : world) :
  exists recs,
    all_data (snd (fst (brand_page car_brand_url data w)))
    = all_data w ++ recs
    /\ Forall (fun rec =>
                 forall k,
                   In k (keys data) \/ k = K_MODEL \/ k = K_COUNTRY
                   \/ k = K_DESCRIPTION \/ In k TRIM_FIELDS ->
                   In k (keys rec))
              recs.
Proof.
  unfold parse_brand_page.
  destruct (fetch_url (web car_brand_url) car_brand_url) as [tr [r|]] eqn:Hf.
  - rewrite (fetch_url_Some_bool _ _ _ _ Hf). simpl negb. cbv iota.
    pose proof (submit_models_tasks
                  car_brand_url data (find_model_links car_brand_url))
      as Ht.
    destruct (submit_models urljoin car_brand_url data
                            (find_model_links car_brand_url))
      as [tasks stopped].
    simpl fst in Ht.
    destruct (run_model_tasks_appended tasks w) as [recs [Hd Hall]].
    destruct (run_model_tasks web clock disk urljoin tasks w)
      as [[results w'] ran].
    simpl in Hd.
    exists recs. split.
    + destruct stopped; exact Hd.
    + eapply Forall_impl; [|exact Hall].
      intros rec [u [d [Hin Hkeys]]] k Hk.
      destruct (Ht u d Hin) as [l [h [_ [_ [_ ->]]]]].
      apply Hkeys. destruct Hk as [Hk|[->|Hk]].
      * left. apply keys_dict_set. now right.
      * left. apply keys_dict_set. now left.
      * now right.
  - exists []. split; [simpl; now rewrite app_nil_r | constructor].
Qed.

End UpperStages.

Section CatalogStage.

Variable web : str -> nat -> attempt_result.
Variable clock : nat -> Q.
Variable disk : nat -> write_outcome.
Variable urljoin : str -> str -> option str.
Variable find_model_links : str -> list generation_link.
Variable find_car_list_div : str -> option car_list_div.
Variable find_car_type : str -> option str.

Local Abbreviation brand_page :=
  (parse_brand_page web clock disk urljoin find_model_links).
Local Abbreviation run_brands :=
  (run_brand_tasks web clock disk urljoin find_model_links).
Local Abbreviation catalog_page :=
  (parse_catalog_page web clock disk urljoin find_model_links
                      find_car_list_div find_car_type).

Lemma submit_brands_tasks (url car_type : str) (links : list brand_link) :
  forall u d,
    In (u, d) (fst (fst (submit_brands urljoin url car_type links))) ->
    exists l h,
      In l links /\ brand_href l = Some h
      /\ urljoin url (strip h) = Some u
      /\ d = [(K_TYPE, car_type);
              (K_BRAND, get_text_strip (brand_strings l))].
Proof.
  induction links as [|l links IH]; intros u d Hin; simpl in Hin.
  - contradiction.
  - destruct (brand_href l) as [h|] eqn:Eh; [|contradiction].
    destruct (urljoin url (strip h)) as [joined|] eqn:Ej; [|contradiction].
    destruct (submit_brands urljoin url car_type links) as [[ts lg] e].
    destruct Hin as [Hin|Hin].
    + injection Hin as <- <-. exists l, h.
      split; [now left|]. repeat split; assumption.
    + destruct (IH u d Hin) as [l' [h' [H1 H2]]].
      exists l', h'. split; [now right | exact H2].
Qed.

Lemma submit_brands_stopped (url car_type : str) (links : list brand_link) :
  snd (submit_brands urljoin url car_type links)
  = first_error (brand_link_error urljoin url) links.
Proof.
  induction links as [|l links IH]; simpl; [reflexivity|].
  unfold brand_link_error at 1, href_error.
  destruct (brand_href l) as [h|]; [|reflexivity].
  destruct (urljoin url (strip h)) as [joined|]; [|reflexivity].
  destruct (submit_brands urljoin url car_type links) as [[ts lg] e].
  simpl in *. exact IH.
Qed.

Lemma run_brand_tasks_cons (u : str) (d : dict) (ts : list task)
      (w : world) :
  run_brands ((u, d) :: ts) w =
  (fst (fst (brand_page u d w))
     :: fst (fst (run_brands ts (snd (fst (brand_page u d w))))),
   snd (fst (run_brands ts (snd (fst (brand_page u d w))))),
   snd (brand_page u d w)
   ++ snd (run_brands ts (snd (fst (brand_page u d w))))).
Proof.
  simpl.
  destruct (parse_brand_page web clock disk urljoin find_model_links u d w)
    as [[o w1] tr1].
  simpl.
  destruct (run_brand_tasks web clock disk urljoin find_model_links ts w1)
    as [[os w2] tr2].
  reflexivity.
Qed.

Lemma run_brand_tasks_appended (tasks : list task) :
  forall w,
    exists recs,
      all_data (snd (fst (run_brands tasks w))) = all_data w ++ recs
      /\ Forall (fun rec =>
                   exists u d,
                     In (u, d) tasks
                     /\ forall k,
                         In k (keys d) \/ k = K_MODEL \/ k = K_COUNTRY
                         \/ k = K_DESCRIPTION \/ In k TRIM_FIELDS ->
                         In k (keys rec))
                recs.
Proof.
  induction tasks as [|[u d] tasks IH]; intros w.
  - exists []. split; [simpl; now rewrite app_nil_r | constructor].
  - rewrite run_brand_tasks_cons. cbn [fst snd].
    destruct (brand_page_appended_keys
                web clock disk urljoin find_model_links u d w)
      as [recs1 [H1 F1]].
    destruct (IH (snd (fst (brand_page u d w)))) as [recs2 [H2 F2]].
    exists (recs1 ++ recs2). split.
    + rewrite H2, H1. now rewrite app_assoc.
    + apply Forall_app. split.
      * eapply Forall_impl; [|exact F1]. intros rec H.
        exists u, d. split; [now left | exact H].
      * eapply Forall_impl; [|exact F2].
        intros rec [u' [d' [Hin H]]].
        exists u', d'. split; [now right | exact H].
Qed.

Lemma catalog_page_appended_keys (url : str) (w : world) :
  exists recs,
    all_data (snd (fst (catalog_page url w))) = all_data w ++ recs
    /\ Forall (fun rec =>
                 forall k,
                   In k ANCESTOR_FIELDS \/ In k TRIM_FIELDS ->
                   In k (keys rec))
              recs.
Proof.
  unfold parse_catalog_page.
  destruct (fetch_url (web url) url) as [tr [r|]] eqn:Hf.
  - rewrite (fetch_url_Some_bool _ _ _ _ Hf). simpl negb. cbv iota zeta.
    set (car_type := match find_car_type url with
                     | Some t => t
                     | None => UNKNOWN_TYPE
                     end).
    pose proof (submit_brands_tasks
                  url car_type (car_brand_links_of (find_car_list_div url)))
      as Ht.
    destruct (submit_brands urljoin url car_type
                            (car_brand_links_of (find_car_list_div url)))
      as [[tasks logged] stopped].
    cbn [fst] in Ht.
    destruct (run_brand_tasks_appended tasks w) as [recs [Hd Hall]].
    destruct (run_brand_tasks web clock disk urljoin find_model_links
                              tasks w)
      as [[results w'] ran].
    simpl in Hd.
    exists recs. split.
    + destruct stopped; exact Hd.
    + eapply Forall_impl; [|exact Hall].
      intros rec [u [d [Hin Hkeys]]] k Hk.
      destruct (Ht u d Hin) as [l [h [_ [_ [_ ->]]]]].
      apply Hkeys. destruct Hk as [Hk|Hk]; [|tauto].
      simpl in Hk. destruct Hk as [<-|[<-|[<-|[<-|[<-|[]]]]]].
      * left. simpl. tauto.
      * left. simpl. tauto.
      * tauto.
      * tauto.
      * tauto.
  - exists []. split; [simpl; now rewrite app_nil_r | constructor].
Qed.

End CatalogStage.

Section EntryPoint.

Variable web : str -> nat -> attempt_result.
Variable clock : nat -> Q.
Variable disk : nat -> write_outcome.
Variable urljoin : str -> str -> option str.
Variable find_model_links : str -> list generation_link.
Variable find_car_list_div : str -> option car_list_div.
Variable find_car_type : str -> option str.

Local Abbreviation brand_page :=
  (parse_brand_page web clock disk urljoin find_model_links).
Local Abbreviation catalog_page :=
  (parse_catalog_page web clock disk urljoin find_model_links
                      find_car_list_div find_car_type).
Local Abbreviation crawl :=
  (main web clock disk urljoin find_model_links
        find_car_list_div find_car_type).


Lemma catalog_page_outcome (url : str) (w : world) :
  fst (fst (catalog_page url w))
  = match snd (fetch_url (web url) url) with
    | None => Returns
    | Some _ =>
      match first_error (brand_link_error urljoin url)
                        (car_brand_links_of (find_car_list_div url)) with
      | None => Returns
      | Some e => Raises e
      end
    end.
Proof.
  unfold parse_catalog_page.
  destruct (fetch_url (web url) url) as [tr [r|]] eqn:Hf; [|reflexivity].
  rewrite (fetch_url_Some_bool _ _ _ _ Hf). simpl negb. cbv iota zeta.
  cbn [snd].
  set (car_type := match find_car_type url with
                   | Some t => t
                   | None => UNKNOWN_TYPE
                   end).
  pose proof (submit_brands_stopped
                urljoin url car_type
                (car_brand_links_of (find_car_list_div url))) as Hs.
  destruct (submit_brands urljoin url car_type
                          (car_brand_links_of (find_car_list_div url)))
    as [[tasks logged] stopped].
  cbn [snd] in Hs. subst stopped.
  destruct (run_brand_tasks web clock disk urljoin find_model_links
                            tasks w)
    as [[results w'] ran].
  destruct (first_error (brand_link_error urljoin url)
                        (car_brand_links_of (find_car_list_div url)));
    reflexivity.
Qed.


(** X19. Whatever the site returns, the whole run only appends to the
    accumulator, and every record it adds has the five keys of the
    ancestor context (type, brand, model, country, description) and
    each of the six trim fields. *)
Theorem every_record_of_a_run_is_complete (w : world) :
  exists recs,
    all_data (fst (crawl w)) = all_data w ++ recs
    /\ forall rec k,
        In rec recs ->
        In k ANCESTOR_FIELDS \/ In k TRIM_FIELDS ->
        In k (keys rec).
Proof.
  unfold main.
  destruct (catalog_page_appended_keys
              web clock disk urljoin find_model_links find_car_list_div
              find_car_type BASE_URL w) as [recs1 [H1 F1]].
  destruct (catalog_page BASE_URL w) as [[o1 w1] tr1].
  cbn [fst snd] in H1.
  destruct (catalog_page_appended_keys
              web clock disk urljoin find_model_links find_car_list_div
              find_car_type LCV_URL w1) as [recs2 [H2 F2]].
  pose proof (fun wx => proj1 (save_keeps_memory disk wx)) as Hsave.
  cbv zeta in Hsave.
  destruct o1 as [|e1].
  - destruct (catalog_page LCV_URL w1) as [[o2 w2] tr2].
    cbn [fst snd] in H2.
    exists (recs1 ++ recs2).
    split.
    + destruct o2 as [|e2];
        specialize (Hsave w2);
        destruct (save_data_to_excel disk w2) as [w3 saved];
        cbn [fst] in Hsave |- *;
        rewrite Hsave, H2, H1; now rewrite app_assoc.
    + intros rec k Hrec Hk. apply in_app_or in Hrec.
      rewrite Forall_forall in F1, F2.
      destruct Hrec as [Hrec|Hrec]; [now apply (F1 rec) | now apply (F2 rec)].
  - exists recs1. split.
    + specialize (Hsave w1).
      destruct (save_data_to_excel disk w1) as [w3 saved].
      cbn [fst] in Hsave |- *. now rewrite Hsave.
    + intros rec k Hrec Hk. rewrite Forall_forall in F1.
      now apply (F1 rec).
Qed.

(** X20. On every path the last thing a run does to the state is a save:
    the file it leaves is the sheet of everything accumulated when that
    last write succeeds, and what the failed write left otherwise. *)
Theorem a_run_ends_with_a_save (w : world) :
  exists n,
    disk_writes (fst (crawl w)) = S n
    /\ file (fst (crawl w))
       = match disk n with
         | Written => Some (make_DataFrame (all_data (fst (crawl w))))
         | WriteFails remains => remains
         end.
Proof.
  assert (Hsave : forall wx,
             disk_writes (fst (save_data_to_excel disk wx))
             = S (disk_writes wx)
             /\ file (fst (save_data_to_excel disk wx))
                = match disk (disk_writes wx) with
                  | Written =>
                    Some (make_DataFrame
                            (all_data (fst (save_data_to_excel disk wx))))
                  | WriteFails remains => remains
                  end).
  { intros wx. unfold save_data_to_excel.
    destruct (disk (disk_writes wx)); split; reflexivity. }
  unfold main.
  destruct (catalog_page BASE_URL w) as [[o1 w1] tr1].
  destruct o1 as [|e1].
  - destruct (catalog_page LCV_URL w1) as [[o2 w2] tr2].
    exists (disk_writes w2).
    destruct o2 as [|e2];
      specialize (Hsave w2);
      destruct (save_data_to_excel disk w2) as [w3 saved];
      exact Hsave.
  - exists (disk_writes w1).
    specialize (Hsave w1).
    destruct (save_data_to_excel disk w1) as [w3 saved].
    exact Hsave.
Qed.

(** X21. When the first catalog page is fetched and the loop over its
    brand links raises (a link without [href], or one whose reference
    [urljoin] rejects), the run never requests the second catalog: it logs
    that exception, saves what the first catalog accumulated and ends. *)
Theorem malformed_first_catalog_skips_second
        (w : world) (tr : list event) (r : response) (e : exn) :
  fetch_url (web BASE_URL) BASE_URL = (tr, Some r) ->
  first_error (brand_link_error urljoin BASE_URL)
              (car_brand_links_of (find_car_list_div BASE_URL))
  = Some e ->
  let first := catalog_page BASE_URL w in
  let saved := save_data_to_excel disk (snd (fst first)) in
  crawl w
  = (fst saved,
     [StageLog INFO MsgStart] ++ snd first
     ++ [StageLog ERROR (MsgUncaught e)]
     ++ map Below (snd saved) ++ [StageLog INFO MsgSavedOnExit]).
Proof.
  intros Hf Hbad first saved. subst first saved.
  pose proof (catalog_page_outcome BASE_URL w) as Ho.
  rewrite Hf in Ho. cbn [snd] in Ho. rewrite Hbad in Ho.
  unfold main.
  destruct (catalog_page BASE_URL w) as [[o1 w1] tr1].
  cbn [fst snd] in Ho |- *. subst o1.
  destruct (save_data_to_excel disk w1) as [w3 saved].
  cbn [fst snd]. now rewrite <- app_assoc.
Qed.

End EntryPoint.

(** Witness of X21: the catalog whose second brand link has
    no [href]. *)
Lemma malformed_first_catalog_skips_second_witness :
  let first :=
    parse_catalog_page web_of_model idle_clock good_disk sample_urljoin
                       sample_model_links malformed_car_list
                       sample_car_type BASE_URL empty_world in
  let saved := save_data_to_excel good_disk (snd (fst first)) in
  main web_of_model idle_clock good_disk sample_urljoin
       sample_model_links malformed_car_list sample_car_type empty_world
  = (fst saved,
     [StageLog INFO MsgStart] ++ snd first
     ++ [StageLog ERROR (MsgUncaught AttributeError)]
     ++ map Below (snd saved) ++ [StageLog INFO MsgSavedOnExit]).
Proof.
  eapply (malformed_first_catalog_skips_second
            web_of_model idle_clock good_disk sample_urljoin
            sample_model_links malformed_car_list sample_car_type
            empty_world _ _ AttributeError).
  - vm_compute. reflexivity.
  - reflexivity.
Defined.

(** The same run when the second brand link is the reference that
    [urljoin] rejects: the line of the first brand is logged, the one of
    the second is not, and the run ends with the [ValueError]. *)
Example unresolvable_brand_link_ends_the_run :
  let '(w', tr') :=
    main web_of_model idle_clock good_disk sample_urljoin
         sample_model_links unresolvable_car_list sample_car_type
         empty_world in
  List.length (all_data w') = 3
  /\ option_map (fun df => List.length (values df)) (file w') = Some 3
  /\ filter (fun ev => match ev with
                       | StageLog _ (MsgBrandFound _ _) => true
                       | StageLog _ (MsgCatalogRequest _) => true
                       | StageLog ERROR _ => true
                       | _ => false
                       end) tr'
     = [StageLog INFO (MsgCatalogRequest BASE_URL);
        StageLog INFO (MsgBrandFound (py "Toyota")
                                     (BASE_URL ++ py "toyota/"));
        StageLog ERROR (MsgUncaught ValueError)].
Proof. vm_compute. repeat split; reflexivity. Qed.

Example sample_run :
  let w' := fst (main web_of_model idle_clock good_disk sample_urljoin
                      sample_model_links sample_car_list sample_car_type
                      empty_world) in
  map (dict_get K_BRAND) (all_data w')
  = [Some (py "Toyota"); Some (py "Toyota"); Some (py "Toyota")]
  /\ map (dict_get K_TYPE) (all_data w')
     = [Some (py "Легковые"); Some (py "Легковые"); Some (py "Легковые")]
  /\ map (dict_get K_MODEL) (all_data w')
     = [Some (py "Camry"); Some (py "Camry"); Some (py "Camry")]
  /\ map (dict_get K_TRIM) (all_data w')
     = [Some (py "2.0 AT Standard"); Some (py "2.5 AT Prestige");
        Some PLACEHOLDER]
  /\ option_map (fun df => List.length (values df)) (file w') = Some 3.
Proof. vm_compute. repeat split; reflexivity. Qed.
